(** * Traffic adjustment engine ([api/traffic.py], class [TrafficData])

    A shallow embedding of the street index, the name normaliser, the
    instruction parser, the classifier, the route adjustment and the street
    search, followed by the properties of the specification that were
    checked against them.

    Conventions of the embedding.
    - A Python [str] is a [list ascii]; the text handled is ASCII (street
      names of the dataset and stripped driving instructions), and a code
      above 127 is an inert symbol here (neither letter, digit nor space).
    - A Python/NumPy float is an exact rational ([Q]); [round(x, n)] is
      rounding half to even on the exact value.  Equality of numbers is
      [Qeq] ([==]).  This reading serves the properties that do not hang
      on the last bit of a float.  The value of the route multiplier
      does: for it the arithmetic is redone in IEEE 754 binary64
      ([Module Binary64], [calculate_route_adjustment64]).
    - A pandas timestamp is a [Z]; [NaT] is [None].
    - [sort_values] promises the date order, not the order of rows that
      tie in date (its default sort is not stable).  [sort_by_date_desc]
      is the arrangement that keeps the order of the file among such rows;
      [_build_street_index_by] takes the arrangement as an argument, for
      the properties that depend on it.
    - A [dict] is an association list in insertion order (iteration order
      of a Python dict), with distinct keys. *)

From Stdlib Require Import Ascii String.
From Stdlib Require Import List Bool Arith ZArith QArith Qround Lia.
From Stdlib Require Import Permutation Sorting.Sorted.
From Stdlib Require DecimalString.
From Stdlib Require Import Lqa.
From Stdlib Require Import Qabs.
Import ListNotations.

Set Implicit Arguments.

Local Open Scope nat_scope.
Local Open Scope list_scope.

(** ** Characters and strings *)

Module Str.

Definition str := list ascii.

(** A literal. *)
Definition lit (s : string) : str := list_ascii_of_string s.

Definition code (c : ascii) : nat := nat_of_ascii c.

Definition between (lo hi : nat) (c : ascii) : bool :=
  (lo <=? code c) && (code c <=? hi).

Definition is_lower (c : ascii) : bool := between 97 122 c.
Definition is_upper (c : ascii) : bool := between 65 90 c.
Definition is_digit (c : ascii) : bool := between 48 57 c.

(** [str.isspace] on ASCII: TAB, LF, VT, FF, CR, FS, GS, RS, US, SPACE.
    The same set is what [\s], [str.strip] and [str.split] use. *)
Definition is_space (c : ascii) : bool :=
  between 9 13 c || between 28 32 c.

(** [\w] on ASCII. *)
Definition is_word (c : ascii) : bool :=
  is_lower c || is_upper c || is_digit c || (code c =? 95).

Definition upper_char (c : ascii) : ascii :=
  if is_lower c then ascii_of_nat (code c - 32) else c.

(** [s.upper()] *)
Definition upper (s : str) : str := map upper_char s.

Fixpoint eqb (a b : str) : bool :=
  match a, b with
  | [], [] => true
  | x :: a', y :: b' => Ascii.eqb x y && eqb a' b'
  | _, _ => false
  end.

(** [b.startswith(a)] *)
Fixpoint startswith (b a : str) : bool :=
  match a, b with
  | [], _ => true
  | x :: a', y :: b' => Ascii.eqb x y && startswith b' a'
  | _ :: _, [] => false
  end.

(** [a in b] (substring test). *)
Fixpoint contains (b a : str) : bool :=
  startswith b a ||
  match b with
  | [] => false
  | _ :: b' => contains b' a
  end.

Fixpoint lstrip (s : str) : str :=
  match s with
  | c :: s' => if is_space c then lstrip s' else s
  | [] => []
  end.

Definition rstrip (s : str) : str := rev (lstrip (rev s)).

(** [s.strip()] *)
Definition strip (s : str) : str := rstrip (lstrip s).

(** The maximal runs of characters that are not separators; [cur] is the
    run being read. *)
Fixpoint runs_from (sep : ascii -> bool) (cur : str) (s : str) : list str :=
  match s with
  | [] => match cur with [] => [] | _ => [cur] end
  | c :: s' =>
      if sep c
      then match cur with
           | [] => runs_from sep [] s'
           | _ => cur :: runs_from sep [] s'
           end
      else runs_from sep (cur ++ [c]) s'
  end.

(** [s.split()]: the maximal runs of non-space characters. *)
Definition split (s : str) : list str := runs_from is_space [] s.

(** [sep.join(parts)] *)
Fixpoint join (sep : str) (parts : list str) : str :=
  match parts with
  | [] => []
  | [p] => p
  | p :: ps => p ++ sep ++ join sep ps
  end.

(** [list(set(l))]: the distinct elements.  Python leaves the order of a
    set unspecified; the model keeps the order of first occurrence. *)
Fixpoint distinct (l : list str) : list str :=
  match l with
  | [] => []
  | x :: l' => x :: filter (fun y => negb (eqb x y)) (distinct l')
  end.

End Str.

Import Str.

(** ** The fragment of [re] the module uses

    Backtracking matching in the order Python's [re] tries the
    alternatives: the alternatives of [|] left to right, a greedy [+] from
    the longest run down, a lazy [+?] from one character up.  A match is
    run against a continuation [k], which receives the character before
    the current position (for [\b]), the rest of the input and the text of
    group 1. *)

Module Re.

Inductive regex : Type :=
| Lit (l : str)                  (* a literal text *)
| Plus (p : ascii -> bool)       (* [p]+   greedy *)
| PlusLazy (p : ascii -> bool)   (* [p]+?  lazy *)
| Alt (r1 r2 : regex)            (* r1|r2 *)
| Seq (r1 r2 : regex)            (* r1 r2 *)
| Group (r : regex)              (* ( r ), the one capturing group *)
| Boundary.                      (* \b *)

Fixpoint alts (r : regex) (rs : list regex) : regex :=
  match rs with
  | [] => r
  | r' :: rs' => Alt r (alts r' rs')
  end.

Definition is_word_at (c : option ascii) : bool :=
  match c with Some x => is_word x | None => false end.

Section Matching.
Variable R : Type.

Definition cont := option ascii -> str -> option str -> option R.

Fixpoint lit_k (l : str) (prev : option ascii) (s : str)
         (k : option ascii -> str -> option R) : option R :=
  match l with
  | [] => k prev s
  | x :: l' =>
      match s with
      | c :: s' => if Ascii.eqb x c then lit_k l' (Some c) s' k else None
      | [] => None
      end
  end.

Fixpoint plus_k (p : ascii -> bool) (s : str)
         (k : option ascii -> str -> option R) : option R :=
  match s with
  | c :: s' =>
      if p c
      then match plus_k p s' k with
           | Some x => Some x
           | None => k (Some c) s'
           end
      else None
  | [] => None
  end.

Fixpoint plus_lazy_k (p : ascii -> bool) (s : str)
         (k : option ascii -> str -> option R) : option R :=
  match s with
  | c :: s' =>
      if p c
      then match k (Some c) s' with
           | Some x => Some x
           | None => plus_lazy_k p s' k
           end
      else None
  | [] => None
  end.

Fixpoint run (r : regex) (prev : option ascii) (s : str)
         (cap : option str) (k : cont) : option R :=
  match r with
  | Lit l => lit_k l prev s (fun prev' s' => k prev' s' cap)
  | Plus p => plus_k p s (fun prev' s' => k prev' s' cap)
  | PlusLazy p => plus_lazy_k p s (fun prev' s' => k prev' s' cap)
  | Alt r1 r2 =>
      match run r1 prev s cap k with
      | Some x => Some x
      | None => run r2 prev s cap k
      end
  | Seq r1 r2 =>
      run r1 prev s cap (fun prev' s' cap' => run r2 prev' s' cap' k)
  | Group r1 =>
      run r1 prev s cap
          (fun prev' s' _ =>
             k prev' s' (Some (firstn (length s - length s') s)))
  | Boundary =>
      if xorb (is_word_at prev) (is_word_at (hd_error s))
      then k prev s cap
      else None
  end.
End Matching.

(** A match of [r] at the start of [s]: the number of characters it
    spans and the text of group 1. *)
Definition match_here (r : regex) (prev : option ascii) (s : str)
  : option (nat * option str) :=
  run r prev s None
      (fun _ s' cap => Some (length s - length s', cap)).

Definition group1 (cap : option str) : str :=
  match cap with Some g => g | None => [] end.

(** [re.findall(r, s)] for a pattern with one group: the group of each
    match, the matches taken left to right without overlap.  [skip]
    counts the characters of the last match still to pass over.  (The
    patterns of this module never match the empty text; an empty match
    moves on by one character.) *)
Fixpoint findall_from (r : regex) (skip : nat) (prev : option ascii)
         (s : str) : list str :=
  match s with
  | [] =>
      match skip with
      | O => match match_here r prev [] with
             | Some (_, cap) => [group1 cap]
             | None => []
             end
      | S _ => []
      end
  | c :: s' =>
      match skip with
      | S n => findall_from r n (Some c) s'
      | O =>
          match match_here r prev s with
          | Some (n, cap) => group1 cap :: findall_from r (pred n) (Some c) s'
          | None => findall_from r 0 (Some c) s'
          end
      end
  end.

Definition findall (r : regex) (s : str) : list str :=
  findall_from r 0 None s.

(** [re.sub(r, repl, s)] for a literal replacement. *)
Fixpoint sub_from (r : regex) (repl : str) (skip : nat)
         (prev : option ascii) (s : str) : str :=
  match s with
  | [] =>
      match skip with
      | O => match match_here r prev [] with
             | Some _ => repl
             | None => []
             end
      | S _ => []
      end
  | c :: s' =>
      match skip with
      | S n => sub_from r repl n (Some c) s'
      | O =>
          match match_here r prev s with
          | Some (S n, _) => repl ++ sub_from r repl n (Some c) s'
          | Some (O, _) => repl ++ c :: sub_from r repl 0 (Some c) s'
          | None => c :: sub_from r repl 0 (Some c) s'
          end
      end
  end.

Definition sub (r : regex) (repl : str) (s : str) : str :=
  sub_from r repl 0 None s.

End Re.

(** ** Numbers *)

Module Num.

Local Open Scope Q_scope.

Definition Qltb (x y : Q) : bool := negb (Qle_bool y x).

(** [sum(l)] *)
Definition sum (l : list Q) : Q := fold_left Qplus l 0.

(** [sum(l) / len(l)]; also pandas' [Series.mean()].  The lists it is
    applied to are never empty. *)
Definition mean (l : list Q) : Q :=
  sum l / inject_Z (Z.of_nat (length l)).

(** [Series.max()] and [Series.min()] of a non-empty column. *)
Definition qmax (x y : Q) : Q := if Qle_bool x y then y else x.
Definition qmin (x y : Q) : Q := if Qle_bool x y then x else y.

Definition maximum (l : list Q) : Q :=
  match l with [] => 0 | x :: l' => fold_left qmax l' x end.

Definition minimum (l : list Q) : Q :=
  match l with [] => 0 | x :: l' => fold_left qmin l' x end.

(** Rounding to the nearest integer, a tie going to the even one. *)
Definition round_half_even (q : Q) : Z :=
  let f := Qfloor q in
  match Qcompare (q - inject_Z f) (1 # 2) with
  | Lt => f
  | Gt => (f + 1)%Z
  | Eq => if Z.even f then f else (f + 1)%Z
  end.

(** [round(x, 3)] *)
Definition round3 (x : Q) : Q :=
  inject_Z (round_half_even (x * 1000)) / 1000.

(** [int(round(x, 0))] *)
Definition round0 (x : Q) : Z := round_half_even x.

End Num.

Import Num.

(** ** Sorting and slicing *)

Section Lists.
Variable A : Type.

(** A stable sort: [lt a b] says that [a] goes strictly before [b];
    elements that neither precede the other keep their order.  It is
    [list.sort(key=...)], and one of the arrangements [sort_values] can
    give. *)
Fixpoint insert_by (lt : A -> A -> bool) (x : A) (l : list A) : list A :=
  match l with
  | [] => [x]
  | y :: l' => if lt y x then y :: insert_by lt x l' else x :: l
  end.

Definition stable_sort (lt : A -> A -> bool) (l : list A) : list A :=
  fold_right (insert_by lt) [] l.

(** [a] may stand before [b]: [b] does not go strictly before [a]. *)
Definition in_order (lt : A -> A -> bool) (a b : A) : Prop := lt b a = false.

(** [l[:limit]]: a negative [limit] counts from the end. *)
Definition slice_to (l : list A) (limit : Z) : list A :=
  if (limit <? 0)%Z
  then firstn (Z.to_nat (Z.of_nat (length l) + limit)) l
  else firstn (Z.to_nat limit) l.

(** [d.get(k)] on a dict kept as an association list. *)
Fixpoint lookup (k : str) (d : list (str * A)) : option A :=
  match d with
  | [] => None
  | (k', v) :: d' => if Str.eqb k' k then Some v else lookup k d'
  end.
End Lists.

(** ** The data model *)

(** A row of the CSV file as [pd.read_csv] hands it over: the street name
    as text ([astype(str)]), the count when [pd.to_numeric] can read it,
    the date when [pd.to_datetime] can read it, the limits as text. *)
Record RawRow : Type := {
  raw_street_name : str;
  raw_total_count : option Q;
  raw_date_count : option Z;
  raw_limits : str
}.

Record Csv : Type := {
  csv_columns : list str;
  csv_rows : list RawRow
}.

(** A cleaned traffic record. *)
Record TrafficRecord : Type := {
  street_name : str;
  total_count : Q;
  date_count : option Z;   (* [None] is NaT *)
  limits : str
}.

Record DataFrame : Type := {
  columns : list str;
  records : list TrafficRecord
}.

(** [pd.DataFrame()] *)
Definition empty_frame : DataFrame := {| columns := []; records := [] |}.

(** [df.empty] *)
Definition empty (df : DataFrame) : bool :=
  match columns df, records df with
  | _ :: _, _ :: _ => false
  | _, _ => true
  end.

Definition has_column (c : str) (cols : list str) : bool :=
  existsb (Str.eqb c) cols.

(** A street index entry. *)
Record Entry : Type := {
  avg_count : Q;
  max_count : Q;
  min_count : Q;
  sample_size : nat
}.

Record TrafficData : Type := {
  traffic_df : DataFrame;
  street_index : list (str * Entry)
}.

(** The five congestion tiers, and the level a classification reports. *)
Inductive tier : Type := very_low | low | moderate | high | very_high.

Inductive level : Type := unknown | known (t : tier).

Inductive bound : Type := finite (q : Q) | infinity.

Definition TRAFFIC_THRESHOLDS (t : tier) : bound :=
  match t with
  | very_low => finite 3000
  | low => finite 8000
  | moderate => finite 15000
  | high => finite 25000
  | very_high => infinity
  end.

Definition CONGESTION_MULTIPLIERS (t : tier) : Q :=
  match t with
  | very_low => 90 # 100
  | low => 95 # 100
  | moderate => 1
  | high => 115 # 100
  | very_high => 130 # 100
  end.

(** [count < bound] *)
Definition below (count : Q) (b : bound) : bool :=
  match b with
  | finite q => Qltb count q
  | infinity => true
  end.

(** ** Loading and indexing *)

Definition required_cols : list str := [lit "street_name"; lit "total_count"].

(** [_load_data]: [None] stands for a file [pd.read_csv] cannot read. *)
Definition _load_data (file : option Csv) : DataFrame :=
  match file with
  | None => empty_frame
  | Some df =>
      if negb (forallb (fun col => has_column col (csv_columns df)) required_cols)
      then empty_frame
      else
        {| columns := csv_columns df;
           records :=
             map (fun r =>
                    {| street_name := strip (upper (raw_street_name r));
                       total_count :=
                         match raw_total_count r with
                         | Some n => n
                         | None => 0%Q
                         end;
                       date_count :=
                         if has_column (lit "date_count") (csv_columns df)
                         then raw_date_count r else None;
                       limits :=
                         if has_column (lit "limits") (csv_columns df)
                         then strip (upper (raw_limits r)) else [] |})
                 (csv_rows df) |}
  end.

(** The order of [sort_values('date_count', ascending=False)]: later dates
    first, rows without a date last.  Among rows that tie the sort is free;
    [sort_by_date_desc] keeps them in the order of the dataset. *)
Definition more_recent (a b : TrafficRecord) : bool :=
  match date_count a, date_count b with
  | Some x, Some y => (y <? x)%Z
  | Some _, None => true
  | None, _ => false
  end.

Definition sort_by_date_desc (l : list TrafficRecord) : list TrafficRecord :=
  stable_sort more_recent l.

(** The rows of one street: [df[df['street_name'] == name]]. *)
Definition rows_of (df : DataFrame) (name : str) : list TrafficRecord :=
  filter (fun r => Str.eqb (street_name r) name) (records df).

Definition _build_street_index (df : DataFrame) : list (str * Entry) :=
  if empty df then []
  else
    map (fun name =>
           let street_data := rows_of df name in
           let recent_avg :=
             if has_column (lit "date_count") (columns df)
             then mean (map total_count (firstn 3 (sort_by_date_desc street_data)))
             else mean (map total_count street_data) in
           (name,
            {| avg_count := recent_avg;
               max_count := maximum (map total_count street_data);
               min_count := minimum (map total_count street_data);
               sample_size := length street_data |}))
        (distinct (map street_name (records df))).

(** [TrafficData.__init__] *)
Definition init (file : option Csv) : TrafficData :=
  let df := _load_data file in
  {| traffic_df := df; street_index := _build_street_index df |}.

(** ** The name normaliser *)

Definition abbreviations : list (str * str) :=
  [ (lit "STREET", lit "ST"); (lit "AVENUE", lit "AV");
    (lit "BOULEVARD", lit "BL"); (lit "DRIVE", lit "DR");
    (lit "ROAD", lit "RD"); (lit "LANE", lit "LN");
    (lit "COURT", lit "CT"); (lit "PLACE", lit "PL");
    (lit "HIGHWAY", lit "HW"); (lit "FREEWAY", lit "FW") ].

(** [\bfull\b] *)
Definition whole_word (full : str) : Re.regex :=
  Re.Seq Re.Boundary (Re.Seq (Re.Lit full) Re.Boundary).

Definition abbreviate (name : str) (fa : str * str) : str :=
  Re.sub (whole_word (fst fa)) (snd fa) name.

Definition _normalize_street_name (street_name : str) : str :=
  match street_name with
  | [] => []
  | _ =>
      let name := strip (upper street_name) in
      let name := fold_left abbreviate abbreviations name in
      join (lit " ") (split name)
  end.

(** ** The instruction parser *)

Definition suffix : Re.regex :=
  Re.alts (Re.Lit (lit "ST"))
          (map (fun s => Re.Lit (lit s))
               ["AV"; "BL"; "DR"; "RD"; "LN"; "CT"; "PL"; "HW"; "FW"]%string).

(** [[A-Z0-9\s]] and [[A-Z0-9]] *)
Definition name_char (c : ascii) : bool := is_upper c || is_digit c || is_space c.
Definition alnum_char (c : ascii) : bool := is_upper c || is_digit c.

Definition lead_in (first : string) (others : list string) : Re.regex -> Re.regex :=
  fun rest =>
    Re.Seq (Re.alts (Re.Lit (lit first)) (map (fun s => Re.Lit (lit s)) others))
           (Re.Seq (Re.Plus is_space)
                   (Re.Seq (Re.Group (Re.PlusLazy name_char)) rest)).

Definition patterns : list Re.regex :=
  [ lead_in "ONTO" ["ON"; "TO"]%string (Re.Seq (Re.Plus is_space) suffix);
    lead_in "VIA" ["TAKE"]%string (Re.Seq (Re.Plus is_space) suffix);
    Re.Group (Re.Seq (Re.Plus alnum_char) (Re.Seq (Re.Plus is_space) suffix)) ].

Definition _extract_street_from_instruction (instruction : str) : list str :=
  match instruction with
  | [] => []
  | _ =>
      let instruction := upper instruction in
      let streets := flat_map (fun pattern => Re.findall pattern instruction) patterns in
      let cleaned :=
        flat_map (fun s =>
                    let normalized := _normalize_street_name s in
                    match normalized with
                    | [] => []
                    | _ => if 2 <? length normalized then [normalized] else []
                    end)
                 streets in
      distinct cleaned
  end.

(** ** The classifier *)

Definition get_traffic_count (self : TrafficData) (street_name : str) : option Q :=
  if empty (traffic_df self) then None
  else
    let normalized := _normalize_street_name street_name in
    match lookup normalized (street_index self) with
    | Some data => Some (avg_count data)
    | None =>
        let matches :=
          flat_map (fun kv : str * Entry =>
                      let (indexed_street, data) := kv in
                      if contains indexed_street normalized
                         || contains normalized indexed_street
                      then [avg_count data] else [])
                   (street_index self) in
        match matches with
        | [] => None
        | _ => Some (mean matches)
        end
    end.

Definition tier_of (count : Q) : tier :=
  if below count (TRAFFIC_THRESHOLDS very_low) then very_low
  else if below count (TRAFFIC_THRESHOLDS low) then low
  else if below count (TRAFFIC_THRESHOLDS moderate) then moderate
  else if below count (TRAFFIC_THRESHOLDS high) then high
  else very_high.

Definition get_traffic_level (self : TrafficData) (street_name : str)
  : level * Q * option Q :=
  match get_traffic_count self street_name with
  | None => (unknown, 1%Q, None)
  | Some count =>
      let level := tier_of count in
      (known level, CONGESTION_MULTIPLIERS level, Some count)
  end.

(** ** The route adjustment *)

(** A route step: a dict that may hold an ['instruction']. *)
Record Step : Type := { instruction : option str }.

Inductive confidence_label : Type := conf_low | conf_medium | conf_high.

Record StreetDetail : Type := {
  d_street : str;
  d_level : level;
  d_multiplier : Q;
  d_count : option Q
}.

Record Adjustment : Type := {
  multiplier : Q;
  confidence : confidence_label;
  streets_matched : nat;
  street_details : list StreetDetail
}.

Definition identity_adjustment : Adjustment :=
  {| multiplier := 1%Q; confidence := conf_low;
     streets_matched := 0; street_details := [] |}.

(** The two lists the loops fill. *)
Definition acc : Type := (list Q * list StreetDetail)%type.

(** The body of the inner loop, for one candidate street. *)
Definition visit_street (self : TrafficData) (a : acc) (street : str) : acc :=
  let '(level, mult, count) := get_traffic_level self street in
  match level with
  | unknown => a
  | known _ =>
      (fst a ++ [mult],
       snd a ++ [{| d_street := street; d_level := level;
                    d_multiplier := mult; d_count := count |}])
  end.

(** The body of the outer loop, for one step. *)
Definition visit_step (self : TrafficData) (a : acc) (step : Step) : acc :=
  let instruction :=
    match instruction step with Some i => i | None => [] end in
  let streets := _extract_street_from_instruction instruction in
  fold_left (visit_street self) streets a.

Definition confidence_of (n : nat) : confidence_label :=
  if 5 <=? n then conf_high
  else if 2 <=? n then conf_medium
  else conf_low.

Definition calculate_route_adjustment (self : TrafficData)
           (route_steps : list Step) : Adjustment :=
  match route_steps with
  | [] => identity_adjustment
  | _ =>
      let '(multipliers, street_details) :=
        fold_left (visit_step self) route_steps ([], []) in
      match multipliers with
      | [] => identity_adjustment
      | _ =>
          let avg_multiplier := mean multipliers in
          {| multiplier := round3 avg_multiplier;
             confidence := confidence_of (length multipliers);
             streets_matched := length multipliers;
             street_details := street_details |}
      end
  end.

(** ** The street search *)

Record Match : Type := {
  m_street_name : str;
  m_avg_count : Z;
  m_traffic_level : level;
  m_sample_size : nat
}.

(** The sort key [(not name.startswith(query), -avg_count)] and the order
    of such pairs ([False < True], then the integers). *)
Definition sort_key (query : str) (x : Match) : bool * Z :=
  (negb (startswith (m_street_name x) query), (- m_avg_count x)%Z).

Definition key_lt (a b : bool * Z) : bool :=
  match fst a, fst b with
  | false, true => true
  | true, false => false
  | _, _ => (snd a <? snd b)%Z
  end.

Definition search_streets (self : TrafficData) (query : str) (limit : Z)
  : list Match :=
  if empty (traffic_df self) then []
  else
    match query with
    | [] => []
    | _ =>
        let query := upper query in
        let matches :=
          flat_map (fun kv : str * Entry =>
                      let (street, data) := kv in
                      if contains street query
                      then
                        let '(level, mult, _) := get_traffic_level self street in
                        [{| m_street_name := street;
                            m_avg_count := round0 (avg_count data);
                            m_traffic_level := level;
                            m_sample_size := sample_size data |}]
                      else [])
                   (street_index self) in
        let matches :=
          stable_sort (fun a b => key_lt (sort_key query a) (sort_key query b))
                      matches in
        slice_to matches limit
    end.

(** ** The statistics *)

Definition opt_min (a : option Z) (b : option Z) : option Z :=
  match a, b with
  | Some x, Some y => Some (Z.min x y)
  | Some x, None => Some x
  | None, y => y
  end.

Definition opt_max (a : option Z) (b : option Z) : option Z :=
  match a, b with
  | Some x, Some y => Some (Z.max x y)
  | Some x, None => Some x
  | None, y => y
  end.

Record Summary : Type := {
  total_records : nat;
  unique_streets : nat;
  avg_traffic_count : Z;
  max_traffic_count : Z;
  min_traffic_count : Z;
  (* [None] when the dataset has no date column; an inner [None] is NaT *)
  earliest : option (option Z);
  latest : option (option Z)
}.

Inductive Stats : Type := no_data | stats (s : Summary).

Definition get_stats (self : TrafficData) : Stats :=
  let df := traffic_df self in
  if empty df then no_data
  else
    let counts := map total_count (records df) in
    let dated := has_column (lit "date_count") (columns df) in
    stats
      {| total_records := length (records df);
         unique_streets := length (street_index self);
         avg_traffic_count := round0 (mean counts);
         max_traffic_count := round0 (maximum counts);
         min_traffic_count := round0 (minimum counts);
         earliest :=
           if dated
           then Some (fold_left opt_min (map date_count (records df)) None)
           else None;
         latest :=
           if dated
           then Some (fold_left opt_max (map date_count (records df)) None)
           else None |}.

(** ** What the loops of [calculate_route_adjustment] collect *)

Definition step_candidates (step : Step) : list str :=
  _extract_street_from_instruction
    (match instruction step with Some i => i | None => [] end).

(** Every candidate of every step, in step order; a street that two steps
    yield is listed twice. *)
Definition route_candidates (route_steps : list Step) : list str :=
  flat_map step_candidates route_steps.

Definition is_known (l : level) : bool :=
  match l with unknown => false | known _ => true end.

(** The tier multiplier of a candidate, when the classifier knows one. *)
Definition tier_multiplier (self : TrafficData) (street : str) : list Q :=
  match get_traffic_level self street with
  | (known t, _, _) => [CONGESTION_MULTIPLIERS t]
  | (unknown, _, _) => []
  end.

Definition tier_multipliers (self : TrafficData) (route_steps : list Step) : list Q :=
  flat_map (tier_multiplier self) (route_candidates route_steps).

Definition detail_of (self : TrafficData) (street : str) : list StreetDetail :=
  match get_traffic_level self street with
  | (known t, mult, count) =>
      [{| d_street := street; d_level := known t;
          d_multiplier := mult; d_count := count |}]
  | (unknown, _, _) => []
  end.

Definition route_details (self : TrafficData) (route_steps : list Step)
  : list StreetDetail :=
  flat_map (detail_of self) (route_candidates route_steps).

(** The length of a list as a rational. *)
Definition len (A : Type) (l : list A) : Q := inject_Z (Z.of_nat (length l)).

(** ** A small dataset and a route, used to instantiate the properties

    The index of the specification's example: MAIN ST counted 5000 and
    ELM AV counted 20000, in a file without a date column. *)

Definition raw_row (name : string) (count : option Q) (date : option Z) : RawRow :=
  {| raw_street_name := lit name; raw_total_count := count;
     raw_date_count := date; raw_limits := [] |}.

Definition example_csv : Csv :=
  {| csv_columns := [lit "street_name"; lit "total_count"];
     csv_rows := [ raw_row "Main St" (Some 5000%Q) None;
                   raw_row "ELM AV" (Some 20000%Q) None ] |}.

Definition example_data : TrafficData := init (Some example_csv).

Definition step_of (text : string) : Step := {| instruction := Some (lit text) |}.


(** Streets whose counts sit on the thresholds. *)
Definition boundary_csv : Csv :=
  {| csv_columns := [lit "street_name"; lit "total_count"];
     csv_rows := [ raw_row "A ST" (Some 3000%Q) None;
                   raw_row "B ST" (Some 8000%Q) None;
                   raw_row "C ST" (Some 25000%Q) None ] |}.

Definition boundary_data : TrafficData := init (Some boundary_csv).

(** A file with the required columns and no row. *)
Definition no_rows_csv : Csv :=
  {| csv_columns := [lit "street_name"; lit "total_count"]; csv_rows := [] |}.

(** ** Notions used to state the properties of the search

    A returned match comes from an index entry whose key contains the
    (upper-cased) query, with the rounded average and the sample size of
    that entry. *)
Definition found_in (self : TrafficData) (query : str) (m : Match) : Prop :=
  contains (m_street_name m) query = true
  /\ exists e, In (m_street_name m, e) (street_index self)
               /\ m_avg_count m = round0 (avg_count e)
               /\ m_sample_size m = sample_size e.

(** [a] is listed before [b]: a key that starts with the query is never
    behind one that does not, and among keys alike in this the averages
    descend. *)
Definition ranked (query : str) (a b : Match) : Prop :=
  (startswith (m_street_name b) query = true ->
   startswith (m_street_name a) query = true)
  /\ (startswith (m_street_name a) query = startswith (m_street_name b) query ->
      (m_avg_count b <= m_avg_count a)%Z).

(** ** Notions used to state the properties of the index *)

(** The text the loader keeps for the street name of a row. *)
Definition cleaned_name (r : RawRow) : str := strip (upper (raw_street_name r)).

(** The grouping as the specification words it: the rows whose names
    normalise to the same text share the entry under that text. *)
Definition grouped_by_normalized_name (csv : Csv) : Prop :=
  forall r, In r (csv_rows csv) ->
    exists e,
      lookup (_normalize_street_name (raw_street_name r))
             (street_index (init (Some csv))) = Some e
      /\ sample_size e
         = length (filter (fun r' =>
                             Str.eqb (_normalize_street_name (raw_street_name r'))
                                     (_normalize_street_name (raw_street_name r)))
                          (csv_rows csv)).

Definition has_parsed_date (group : list TrafficRecord) : bool :=
  existsb (fun r => match date_count r with Some _ => true | None => false end)
          group.

(** The average as the specification words it: over the three most recent
    rows when some row of the group has a parsed date, over all rows
    otherwise. *)
Definition stated_average (group : list TrafficRecord) : Q :=
  if has_parsed_date group
  then mean (map total_count (firstn 3 (sort_by_date_desc group)))
  else mean (map total_count group).

(** Two spellings of one street. *)
Definition two_spellings_csv : Csv :=
  {| csv_columns := [lit "street_name"; lit "total_count"];
     csv_rows := [ raw_row "MAIN STREET" (Some 100%Q) None;
                   raw_row "MAIN ST" (Some 200%Q) None ] |}.

(** A street counted four times, with dates. *)
Definition dated_csv : Csv :=
  {| csv_columns := [lit "street_name"; lit "total_count"; lit "date_count"];
     csv_rows := [ raw_row "A ST" (Some 10%Q) (Some 1%Z);
                   raw_row "A ST" (Some 40%Q) (Some 4%Z);
                   raw_row "A ST" (Some 20%Q) (Some 2%Z);
                   raw_row "A ST" (Some 30%Q) (Some 3%Z);
                   raw_row "B ST" (Some 7%Q) None ] |}.

(** A file with a date column in which no date of the street could be
    read. *)
Definition undated_csv : Csv :=
  {| csv_columns := [lit "street_name"; lit "total_count"; lit "date_count"];
     csv_rows := [ raw_row "A ST" (Some 0%Q) None;
                   raw_row "A ST" (Some 0%Q) None;
                   raw_row "A ST" (Some 0%Q) None;
                   raw_row "A ST" (Some 4%Q) None ] |}.

(** ** Notions used to reason about the normaliser *)

(** The words of a text in the sense of [\b]: the maximal runs of word
    characters. *)
Definition words (s : str) : list str :=
  runs_from (fun c => negb (is_word c)) [] s.

(** The character before the position reached after reading [w]. *)
Definition last_or (prev : option ascii) (w : str) : option ascii :=
  fold_left (fun _ c => Some c) w prev.

(** Whether [\bfull\b] matches at the start of [s]. *)
Definition hits (full : str) (prev : option ascii) (s : str) : bool :=
  negb (Re.is_word_at prev)
  && startswith s full
  && negb (Re.is_word_at (hd_error (skipn (length full) s))).

(** What an abbreviation does to one word. *)
Definition abbrev_word (w : str) (fa : str * str) : str :=
  if Str.eqb w (fst fa) then snd fa else w.

(** A full form and its abbreviation are non-empty words. *)
Definition word_pair (fa : str * str) : bool :=
  match fst fa, snd fa with
  | _ :: _, _ :: _ => forallb is_word (fst fa) && forallb is_word (snd fa)
  | _, _ => false
  end.

(** A string [str.split] can return: non-empty and free of spaces. *)
Definition token (sep : ascii -> bool) (t : str) : Prop :=
  t <> [] /\ Forall (fun c => sep c = false) t.

(** The rest of a text starts at a separator or is empty. *)
Definition at_sep (sep : ascii -> bool) (r : str) : Prop :=
  match r with
  | [] => True
  | c :: _ => sep c = true
  end.

(** The run being read, closed. *)
Definition flush (cur : str) : list str :=
  match cur with [] => [] | _ => [cur] end.

(** A text that does not begin with a space. *)
Definition starts_clean (s : str) : Prop :=
  match s with
  | [] => True
  | c :: _ => is_space c = false
  end.

(** No abbreviation is itself a full form. *)
Definition short_forms_stay (l : list (str * str)) : bool :=
  forallb (fun fa => forallb (fun fa' => negb (Str.eqb (snd fa) (fst fa'))) l) l.

(** ** The HTTP resources of the module

    A resource answers with a body and a status; a query argument that
    the request does not carry is [None].  The shared instance
    [traffic_data_instance] is the argument [self]. *)

Inductive Response (A : Type) : Type :=
| failed (error : string) (status : nat)
| answered (body : A) (status : nat).

Arguments failed {A} error status.
Arguments answered {A} body status.

Record LevelBody : Type := {
  b_street : str;
  b_traffic_level : level;
  b_congestion_multiplier : Q;
  b_vehicle_count : option Q
}.

(** [request.args.get('street', '')] *)
Definition arg_or_empty (a : option str) : str :=
  match a with Some s => s | None => [] end.

(** [_GetTrafficLevel.get] *)
Definition _GetTrafficLevel_get (self : TrafficData) (street_arg : option str)
  : Response LevelBody :=
  let street := arg_or_empty street_arg in
  match street with
  | [] => failed "Street parameter is required" 400
  | _ =>
      let '(level, multiplier, count) := get_traffic_level self street in
      answered {| b_street := street;
                  b_traffic_level := level;
                  b_congestion_multiplier := multiplier;
                  b_vehicle_count := count |} 200
  end.

Record SearchBody : Type := {
  b_results : list Match;
  b_count : nat
}.

(** [_SearchStreets.get]; [limit_arg] is the argument [limit] when the
    request carries one that reads as an integer
    ([request.args.get('limit', 10, type=int)]). *)
Definition _SearchStreets_get (self : TrafficData) (q_arg : option str)
           (limit_arg : option Z) : Response SearchBody :=
  let query := arg_or_empty q_arg in
  let limit := match limit_arg with Some n => n | None => 10%Z end in
  match query with
  | [] => failed "Query parameter q is required" 400
  | _ =>
      let results := search_streets self query limit in
      answered {| b_results := results; b_count := length results |} 200
  end.

(** [_TrafficStats.get] *)
Definition _TrafficStats_get (self : TrafficData) : Response Stats :=
  answered (get_stats self) 200.

(** ** Notions used to state further properties *)

(** The order of the confidence labels. *)
Definition confidence_rank (c : confidence_label) : nat :=
  match c with conf_low => 0 | conf_medium => 1 | conf_high => 2 end.

(** A step with the instruction in upper case. *)
Definition upper_step (step : Step) : Step :=
  {| instruction := option_map upper (instruction step) |}.

(** The keys of an index are pairwise different. *)
Definition distinct_keys (self : TrafficData) : Prop :=
  NoDup (map fst (street_index self)).

(** A dataset with streets of one tier only, and a route through two of
    them. *)
Definition calm_csv : Csv :=
  {| csv_columns := [lit "street_name"; lit "total_count"];
     csv_rows := [ raw_row "Oak St" (Some 1000%Q) None;
                   raw_row "Pine Av" (Some 2000%Q) None;
                   raw_row "  elm   ct " None None ] |}.

Definition calm_data : TrafficData := init (Some calm_csv).

Definition calm_route : list Step :=
  [step_of "Oak St"; step_of "Continue"; step_of "Pine Av"].

(** The entries the search keeps before it sorts them: the loop of
    [search_streets] over the index, for the upper-cased query [q]. *)
Definition matching_entries (self : TrafficData) (q : str) : list Match :=
  flat_map (fun kv : str * Entry =>
              let (street, data) := kv in
              if contains street q
              then
                let '(level, mult, _) := get_traffic_level self street in
                [{| m_street_name := street;
                    m_avg_count := round0 (avg_count data);
                    m_traffic_level := level;
                    m_sample_size := sample_size data |}]
              else [])
           (street_index self).

(** The order [search_streets] sorts by. *)
Definition by_relevance (q : str) (a b : Match) : bool :=
  key_lt (sort_key q a) (sort_key q b).

(** Earliest and latest date of the statistics agree: both absent, both
    NaT, or in order. *)
Definition dates_in_order (first last : option (option Z)) : Prop :=
  match first, last with
  | None, None => True
  | Some None, Some None => True
  | Some (Some x), Some (Some y) => (x <= y)%Z
  | _, _ => False
  end.

(** ** The caller of the engine ([api/route.py]) *)

Definition not_gt (c : ascii) : bool := negb (Ascii.eqb c ">").

(** The pattern [<[^>]*>].  The greedy [*] is spelt as its two cases in
    the order [re] tries them: one or more characters, then none. *)
Definition html_tag : Re.regex :=
  Re.Seq (Re.Lit (lit "<"))
         (Re.Alt (Re.Seq (Re.Plus not_gt) (Re.Lit (lit ">")))
                 (Re.Lit (lit ">"))).

(** [strip_html] *)
Definition strip_html (text : str) : str := Re.sub html_tag [] text.

(** The place of the first [>] of a text. *)
Fixpoint find_gt (s : str) : option nat :=
  match s with
  | [] => None
  | c :: s' => if Ascii.eqb c ">" then Some 0 else option_map S (find_gt s')
  end.

(** A text holds no tag: no [<] with a [>] after it. *)
Definition tag_free (s : str) : Prop :=
  forall a b c, s <> a ++ "<"%char :: b ++ ">"%char :: c.

(** The decimal digits of an integer ([str(n)], [f"{n}"]). *)
Definition decimal (z : Z) : str :=
  list_ascii_of_string (DecimalString.NilZero.string_of_int (Z.to_int z)).

(** [f"{x:.0f}"]: the nearest integer, a tie going to the even one; the
    sign of [x] is printed also when the digits are zero. *)
Definition format_0f (x : Q) : str :=
  let z := round_half_even x in
  if Qltb x 0 && (z =? 0)%Z then lit "-0" else decimal z.

(** [x // y] and [x % y] for a positive [y]. *)
Definition floor_div (x y : Q) : Q := inject_Z (Qfloor (x / y)).
Definition float_mod (x y : Q) : Q := (x - y * floor_div x y)%Q.

(** [int(x)]: the integer toward zero. *)
Definition int_of (x : Q) : Z := Z.quot (Qnum x) (Z.pos (Qden x)).

(** [format_duration] *)
Definition format_duration (minutes : Q) : str :=
  if Qltb minutes 60 then format_0f minutes ++ lit " mins"
  else
    let hours := int_of (floor_div minutes 60) in
    let mins := int_of (float_mod minutes 60) in
    if (mins =? 0)%Z then decimal hours ++ lit " hr"
    else decimal hours ++ lit " hr " ++ decimal mins ++ lit " mins".

(** A step of a leg as the directions provider gives it. *)
Record DirectionsStep : Type := {
  html_instructions : str;
  distance_text : str;
  duration_text : str;
  duration_value : Z
}.

(** What the route resource derives from the engine for one route. *)
Record RouteTraffic : Type := {
  traffic_adjusted_duration : str;
  traffic_adjusted_seconds : Z;
  analysis_multiplier : Q;
  analysis_confidence : confidence_label;
  streets_analyzed : nat
}.

(** The body of the loop over the steps of a leg in [_GetRoutes.post]. *)
Definition collect_step (a : list Step * Z) (step : DirectionsStep)
  : list Step * Z :=
  let instruction := strip_html (html_instructions step) in
  let duration_val := duration_value step in
  (fst a ++ [{| instruction := Some instruction |}], (snd a + duration_val)%Z).

(** The traffic part of the body of the loop over the routes in
    [_GetRoutes.post], from the steps of the first leg. *)
Definition route_traffic (self : TrafficData) (steps : list DirectionsStep)
  : RouteTraffic :=
  let '(route_details, total_duration_sec) :=
    fold_left collect_step steps ([], 0%Z) in
  let traffic_adjustment := calculate_route_adjustment self route_details in
  let base_duration_min := (inject_Z total_duration_sec / 60)%Q in
  let adjusted_duration_min :=
    (base_duration_min * multiplier traffic_adjustment)%Q in
  {| traffic_adjusted_duration := format_duration adjusted_duration_min;
     traffic_adjusted_seconds := int_of (adjusted_duration_min * 60)%Q;
     analysis_multiplier := multiplier traffic_adjustment;
     analysis_confidence := confidence traffic_adjustment;
     streets_analyzed := streets_matched traffic_adjustment |}.

(** The seconds of a leg, step by step. *)
Definition total_seconds (steps : list DirectionsStep) : Z :=
  fold_right (fun step total => (duration_value step + total)%Z) 0%Z steps.

(** The instructions of a leg, markup removed. *)
Definition plain_steps (steps : list DirectionsStep) : list Step :=
  map (fun step => {| instruction := Some (strip_html (html_instructions step)) |})
      steps.

Definition directions_step (html : string) (seconds : Z) : DirectionsStep :=
  {| html_instructions := lit html; distance_text := [];
     duration_text := []; duration_value := seconds |}.


(** ** The index under any arrangement by date

    [sort_values('date_count', ascending=False)] returns the rows of the
    street with later dates first and the rows without a date last.  It
    sorts with NumPy's quicksort, which is not stable: which of several
    rows with one date come first is the sort's choice, and with it the
    rows that [head(3)] keeps.  The builder below is
    [_build_street_index] with the arrangement as its argument
    [sort_values]. *)

Section AnyArrangement.
Variable sort_values : list TrafficRecord -> list TrafficRecord.

Definition _build_street_index_by (df : DataFrame) : list (str * Entry) :=
  if empty df then []
  else
    map (fun name =>
           let street_data := rows_of df name in
           let recent_avg :=
             if has_column (lit "date_count") (columns df)
             then mean (map total_count (firstn 3 (sort_values street_data)))
             else mean (map total_count street_data) in
           (name,
            {| avg_count := recent_avg;
               max_count := maximum (map total_count street_data);
               min_count := minimum (map total_count street_data);
               sample_size := length street_data |}))
        (distinct (map street_name (records df))).

End AnyArrangement.

(** What [sort_values] promises: the same rows, no row before one that is
    more recent, rows without a date after the dated ones. *)
Definition date_order (sort_values : list TrafficRecord -> list TrafficRecord)
  : Prop :=
  forall l, Permutation (sort_values l) l
            /\ StronglySorted (in_order more_recent) (sort_values l).

(** An arrangement in date order that puts the rows that tie in the
    reverse of the order of the dataset. *)
Definition sort_by_date_desc_reversing (l : list TrafficRecord)
  : list TrafficRecord :=
  sort_by_date_desc (rev l).

(** A street counted four times on one day. *)
Definition tied_csv : Csv :=
  {| csv_columns := [lit "street_name"; lit "total_count"; lit "date_count"];
     csv_rows := [ raw_row "A ST" (Some 1%Q) (Some 5%Z);
                   raw_row "A ST" (Some 2%Q) (Some 5%Z);
                   raw_row "A ST" (Some 3%Q) (Some 5%Z);
                   raw_row "A ST" (Some 4%Q) (Some 5%Z) ] |}.

(** ** The route multiplier with the floats of the machine

    A Python float is an IEEE 754 double.  Here a finite double is the
    rational it stands for, and an operation is the exact one followed by
    rounding to the nearest double, a tie going to the even significand.
    (No overflow: the numbers of the engine stay far below [2^1024].) *)

Module Binary64.

Local Open Scope Q_scope.

(** [2^k] *)
Definition pow2 (k : Z) : Q :=
  match k with
  | Z0 => 1
  | Zpos p => inject_Z (2 ^ Zpos p)
  | Zneg p => 1 # (2 ^ p)
  end.

(** The exponent of [x]: the [k] with [2^k <= |x| < 2^(k+1)], for [x]
    other than 0. *)
Definition ilog2 (x : Q) : Z :=
  let a := (Z.log2 (Z.abs (Qnum x)) - Z.log2 (Z.pos (Qden x)))%Z in
  if Qle_bool (pow2 a) (Qabs x) then a else (a - 1)%Z.

(** The double nearest to [x]: 53 significant bits, the least exponent
    that of the subnormal numbers. *)
Definition nearest (x : Q) : Q :=
  let e := Z.max (ilog2 x - 52) (-1074) in
  Qred (inject_Z (round_half_even (x / pow2 e)) * pow2 e).

(** A decimal literal of the source, such as [0.95]. *)
Definition literal (q : Q) : Q := nearest q.






End Binary64.





(** ** What the loader keeps of a row *)

(** The count of a row: the number read, 0 when none could be read
    ([pd.to_numeric(errors='coerce').fillna(0)]). *)
Definition count_read (r : RawRow) : Q :=
  match raw_total_count r with Some n => n | None => 0%Q end.
(** * Properties *)

Unset Implicit Arguments.

(** ** Strings *)

Section StrFacts.

Lemma eqb_eq (a b : str) : Str.eqb a b = true <-> a = b.
Proof.
  revert b. induction a as [|x a IH]; destruct b as [|y b]; simpl;
    try (split; [discriminate | congruence]); [tauto|].
  rewrite andb_true_iff, Ascii.eqb_eq, IH.
  split; [intros [-> ->]; reflexivity | intro H; inversion H; auto].
Qed.

Lemma eqb_refl (a : str) : Str.eqb a a = true.
Proof. apply eqb_eq. reflexivity. Qed.

Lemma eqb_neq (a b : str) : Str.eqb a b = false <-> a <> b.
Proof.
  split.
  - intros H E. apply eqb_eq in E. congruence.
  - intro H. destruct (Str.eqb a b) eqn:E; [|reflexivity].
    apply eqb_eq in E. contradiction.
Qed.

End StrFacts.

(** ** Arithmetic of means and rounding *)

Section NumFacts.
Local Open Scope Q_scope.

Lemma fold_sum_shift (l : list Q) (a : Q) :
  fold_left Qplus l a == a + sum l.
Proof.
  unfold sum. revert a.
  induction l as [|x l IH]; intro a; simpl.
  - ring.
  - rewrite (IH (a + x)), (IH (0 + x)). ring.
Qed.

Lemma sum_cons (x : Q) (l : list Q) : sum (x :: l) == x + sum l.
Proof.
  unfold sum at 1. simpl. rewrite fold_sum_shift. ring.
Qed.

Lemma len_cons (A : Type) (x : A) (l : list A) : len (x :: l) == len l + 1.
Proof.
  unfold len. cbn [length]. rewrite Nat2Z.inj_succ, <- Z.add_1_r.
  rewrite inject_Z_plus. reflexivity.
Qed.

Lemma len_pos (A : Type) (l : list A) : l <> [] -> 0 < len l.
Proof.
  destruct l as [|x l]; [congruence|]. intros _.
  unfold len. cbn [length].
  rewrite <- (Zlt_Qlt 0). lia.
Qed.

Lemma sum_bounds (lo hi : Q) (l : list Q) :
  Forall (fun x => lo <= x <= hi) l ->
  lo * len l <= sum l <= hi * len l.
Proof.
  induction 1 as [|x l [Hlo Hhi] _ [IHlo IHhi]].
  - unfold sum, len. simpl. split; ring_simplify; apply Qle_refl.
  - rewrite sum_cons, len_cons. split.
    + setoid_replace (lo * (len l + 1)) with (lo + lo * len l) by ring.
      apply Qplus_le_compat; assumption.
    + setoid_replace (hi * (len l + 1)) with (hi + hi * len l) by ring.
      apply Qplus_le_compat; assumption.
Qed.

Lemma mean_bounds (lo hi : Q) (l : list Q) :
  l <> [] ->
  Forall (fun x => lo <= x <= hi) l ->
  lo <= mean l <= hi.
Proof.
  intros Hne Hall.
  destruct (sum_bounds _ _ _ Hall) as [Hlo Hhi].
  pose proof (len_pos _ _ Hne) as Hpos.
  unfold mean. fold (len l). split.
  - apply Qle_shift_div_l; assumption.
  - apply Qle_shift_div_r; assumption.
Qed.

Lemma round_half_even_floor (q : Q) :
  round_half_even q = Qfloor q \/ round_half_even q = (Qfloor q + 1)%Z.
Proof.
  unfold round_half_even.
  destruct (Qcompare _ _); auto.
  destruct (Z.even _); auto.
Qed.

Lemma round_half_even_ge (n : Z) (q : Q) :
  inject_Z n <= q -> (n <= round_half_even q)%Z.
Proof.
  intro H. apply Qfloor_resp_le in H. rewrite Qfloor_Z in H.
  destruct (round_half_even_floor q) as [-> | ->]; lia.
Qed.

Lemma round_half_even_le (n : Z) (q : Q) :
  q <= inject_Z n -> (round_half_even q <= n)%Z.
Proof.
  intro H.
  pose proof (Qfloor_resp_le _ _ H) as Hf. rewrite Qfloor_Z in Hf.
  destruct (Z.eq_dec (Qfloor q) n) as [E | NE].
  - unfold round_half_even.
    assert (Hlt : q - inject_Z (Qfloor q) < 1 # 2).
    { rewrite E.
      apply Qle_lt_trans with (y := 0); [|reflexivity].
      apply (Qplus_le_l _ _ (inject_Z n)). ring_simplify. exact H. }
    rewrite (proj1 (Qlt_alt _ _) Hlt). lia.
  - destruct (round_half_even_floor q) as [-> | ->]; lia.
Qed.

(** Rounding to three decimals keeps a value between two bounds that
    have at most three decimals themselves. *)
Lemma round3_bounds (lo hi : Z) (x : Q) :
  inject_Z lo / 1000 <= x <= inject_Z hi / 1000 ->
  inject_Z lo / 1000 <= round3 x <= inject_Z hi / 1000.
Proof.
  intros [Hlo Hhi]. unfold round3.
  assert (H1 : inject_Z lo <= x * 1000).
  { setoid_replace (inject_Z lo) with (inject_Z lo / 1000 * 1000) by field.
    apply Qmult_le_compat_r; [exact Hlo | discriminate]. }
  assert (H2 : x * 1000 <= inject_Z hi).
  { setoid_replace (inject_Z hi) with (inject_Z hi / 1000 * 1000) by field.
    apply Qmult_le_compat_r; [exact Hhi | discriminate]. }
  apply round_half_even_ge in H1. apply round_half_even_le in H2.
  split; apply Qmult_le_compat_r; try (rewrite <- Zle_Qle; assumption);
    discriminate.
Qed.

End NumFacts.

(** ** What the loops collect: proofs *)

Section Loops.
Variable self : TrafficData.

Lemma level_multiplier (street : str) (l : level) (m : Q) (c : option Q) :
  get_traffic_level self street = (l, m, c) ->
  match l with
  | known t => m = CONGESTION_MULTIPLIERS t
  | unknown => m = 1%Q /\ c = None
  end.
Proof.
  unfold get_traffic_level.
  destruct (get_traffic_count self street); intro H; inversion H; auto.
Qed.

Lemma visit_street_eq (a : acc) (street : str) :
  visit_street self a street
  = (fst a ++ tier_multiplier self street, snd a ++ detail_of self street).
Proof.
  unfold visit_street, tier_multiplier, detail_of.
  destruct (get_traffic_level self street) as [[l m] c] eqn:E.
  apply level_multiplier in E.
  destruct l; [|subst m]; rewrite ?app_nil_r; destruct a; reflexivity.
Qed.

Lemma visit_streets_eq (streets : list str) (a : acc) :
  fold_left (visit_street self) streets a
  = (fst a ++ flat_map (tier_multiplier self) streets,
     snd a ++ flat_map (detail_of self) streets).
Proof.
  revert a. induction streets as [|s streets IH]; intro a; simpl.
  - rewrite !app_nil_r. destruct a; reflexivity.
  - rewrite IH, visit_street_eq. simpl. rewrite <- !app_assoc. reflexivity.
Qed.

Lemma visit_steps_eq (route_steps : list Step) (a : acc) :
  fold_left (visit_step self) route_steps a
  = (fst a ++ tier_multipliers self route_steps,
     snd a ++ route_details self route_steps).
Proof.
  unfold tier_multipliers, route_details, route_candidates.
  revert a. induction route_steps as [|st route_steps IH]; intro a; simpl.
  - rewrite !app_nil_r. destruct a; reflexivity.
  - rewrite IH. unfold visit_step. fold (step_candidates st).
    rewrite visit_streets_eq. simpl.
    rewrite !flat_map_app, <- !app_assoc. reflexivity.
Qed.

(** The result in terms of the collected multipliers. *)
Lemma calculate_route_adjustment_eq (route_steps : list Step) :
  calculate_route_adjustment self route_steps
  = match tier_multipliers self route_steps with
    | [] => identity_adjustment
    | ms =>
        {| multiplier := round3 (mean ms);
           confidence := confidence_of (length ms);
           streets_matched := length ms;
           street_details := route_details self route_steps |}
    end.
Proof.
  unfold calculate_route_adjustment.
  destruct route_steps as [|st rest]; [reflexivity|].
  rewrite visit_steps_eq. simpl fst. simpl snd. simpl app.
  destruct (tier_multipliers self (st :: rest)); reflexivity.
Qed.

Lemma details_length (streets : list str) :
  length (flat_map (detail_of self) streets)
  = length (flat_map (tier_multiplier self) streets).
Proof.
  induction streets as [|s streets IH]; simpl; [reflexivity|].
  rewrite !length_app, IH. f_equal.
  unfold detail_of, tier_multiplier.
  destruct (get_traffic_level self s) as [[[|t] m] c]; reflexivity.
Qed.

Lemma details_known (streets : list str) :
  Forall (fun d => exists t, d_level d = known t
                             /\ d_multiplier d = CONGESTION_MULTIPLIERS t)
         (flat_map (detail_of self) streets).
Proof.
  induction streets as [|s streets IH]; simpl; [constructor|].
  apply Forall_app. split; [|exact IH].
  unfold detail_of.
  destruct (get_traffic_level self s) as [[[|t] m] c] eqn:E;
    constructor; [|constructor].
  apply level_multiplier in E. exists t. simpl. auto.
Qed.

Lemma multipliers_in_table (streets : list str) :
  Forall (fun m => exists t, m = CONGESTION_MULTIPLIERS t)
         (flat_map (tier_multiplier self) streets).
Proof.
  induction streets as [|s streets IH]; simpl; [constructor|].
  apply Forall_app. split; [|exact IH].
  unfold tier_multiplier.
  destruct (get_traffic_level self s) as [[[|t] m] c];
    constructor; [|constructor].
  exists t. reflexivity.
Qed.


End Loops.

(** ** The stable sort *)

Section SortFacts.
Variable A : Type.
Variable lt : A -> A -> bool.

Lemma insert_by_perm (x : A) (l : list A) :
  Permutation (insert_by lt x l) (x :: l).
Proof.
  induction l as [|y l IH]; simpl; [reflexivity|].
  destruct (lt y x); [|reflexivity].
  rewrite IH. apply perm_swap.
Qed.

Lemma stable_sort_perm (l : list A) : Permutation (stable_sort lt l) l.
Proof.
  induction l as [|x l IH]; simpl; [reflexivity|].
  rewrite insert_by_perm. constructor. exact IH.
Qed.

Lemma stable_sort_in (x : A) (l : list A) : In x (stable_sort lt l) <-> In x l.
Proof.
  split; apply Permutation_in;
    [|symmetry]; apply stable_sort_perm.
Qed.

Hypothesis lt_asym : forall a b, lt a b = true -> lt b a = false.
Hypothesis le_trans :
  forall a b c, lt b a = false -> lt c b = false -> lt c a = false.

Lemma insert_by_sorted (x : A) (l : list A) :
  StronglySorted (in_order lt) l -> StronglySorted (in_order lt) (insert_by lt x l).
Proof.
  induction 1 as [|y l Hs IH Hy]; simpl.
  - constructor; constructor.
  - destruct (lt y x) eqn:E.
    + constructor; [exact IH|].
      apply Forall_forall. intros z Hz.
      apply (Permutation_in _ (insert_by_perm x l)) in Hz.
      destruct Hz as [<- | Hz].
      * apply lt_asym. exact E.
      * rewrite Forall_forall in Hy. apply Hy. exact Hz.
    + constructor; [constructor; assumption|].
      constructor; [exact E|].
      eapply Forall_impl; [|exact Hy].
      intros z Hz. unfold in_order in *. eapply le_trans; eassumption.
Qed.

Lemma stable_sort_sorted (l : list A) : StronglySorted (in_order lt) (stable_sort lt l).
Proof.
  induction l as [|x l IH]; simpl; [constructor|].
  apply insert_by_sorted. exact IH.
Qed.

End SortFacts.

Section ListFacts.
Variable A : Type.

Lemma firstn_in (n : nat) (l : list A) (x : A) : In x (firstn n l) -> In x l.
Proof.
  revert n. induction l as [|y l IH]; intros [|n]; simpl; try tauto.
  intros [H | H]; [left; exact H | right; apply (IH n); exact H].
Qed.

Lemma firstn_sorted (R : A -> A -> Prop) (n : nat) (l : list A) :
  StronglySorted R l -> StronglySorted R (firstn n l).
Proof.
  intro H. revert n.
  induction H as [|x l Hs IH Hx]; intro n; destruct n; simpl; try constructor.
  - apply IH.
  - rewrite Forall_forall in *. intros y Hy. apply Hx.
    eapply firstn_in; eassumption.
Qed.

Lemma slice_to_firstn (l : list A) (limit : Z) :
  exists n, slice_to l limit = firstn n l.
Proof. unfold slice_to. destruct (limit <? 0)%Z; eexists; reflexivity. Qed.

Lemma slice_to_length (l : list A) (limit : Z) :
  (0 <= limit)%Z -> (Z.of_nat (length (slice_to l limit)) <= limit)%Z.
Proof.
  intro H. unfold slice_to.
  destruct (limit <? 0)%Z eqn:E; [apply Z.ltb_lt in E; lia|].
  rewrite length_firstn. lia.
Qed.

(** A negative [limit] drops that many elements from the end. *)
Lemma slice_to_negative (l : list A) (limit : Z) :
  (limit < 0)%Z ->
  Z.of_nat (length (slice_to l limit))
  = Z.max 0 (Z.of_nat (length l) + limit).
Proof.
  intro H. unfold slice_to.
  apply Z.ltb_lt in H. rewrite H. apply Z.ltb_lt in H.
  rewrite length_firstn. lia.
Qed.

(** Lookup in a table computed from its keys. *)
Lemma lookup_map (f : str -> A) (names : list str) (k : str) (v : A) :
  lookup k (map (fun name => (name, f name)) names) = Some v ->
  In k names /\ v = f k.
Proof.
  induction names as [|n names IH]; simpl; [discriminate|].
  destruct (Str.eqb n k) eqn:E.
  - intro H. inversion H. subst v.
    apply eqb_eq in E. subst n. auto.
  - intro H. destruct (IH H) as [Hin Hv]. auto.
Qed.

End ListFacts.

(** ** The index builder *)

Section IndexFacts.
Local Open Scope Q_scope.

Lemma distinct_in (x : str) (l : list str) : In x (distinct l) <-> In x l.
Proof.
  induction l as [|y l IH]; simpl; [tauto|].
  rewrite filter_In, IH, negb_true_iff, eqb_neq.
  split.
  - intros [H | [H _]]; auto.
  - intros [H | H]; [auto|].
    destruct (list_eq_dec ascii_dec y x); auto.
Qed.

Lemma distinct_nodup (l : list str) : NoDup (distinct l).
Proof.
  induction l as [|y l IH]; simpl; constructor.
  - rewrite filter_In, negb_true_iff, eqb_neq. intros [_ H]. congruence.
  - apply NoDup_filter. exact IH.
Qed.

Lemma lookup_map_in (A : Type) (f : str -> A) (names : list str) (k : str) :
  In k names ->
  lookup k (map (fun name => (name, f name)) names) = Some (f k).
Proof.
  induction names as [|n names IH]; simpl; [tauto|].
  intro H. destruct (Str.eqb n k) eqn:E.
  - apply eqb_eq in E. subst n. reflexivity.
  - apply IH. destruct H as [H | H]; [|exact H].
    apply eqb_neq in E. contradiction.
Qed.

Lemma qmax_cases (a x : Q) :
  (qmax a x = a \/ qmax a x = x) /\ a <= qmax a x /\ x <= qmax a x.
Proof.
  unfold qmax. destruct (Qle_bool a x) eqn:E.
  - apply Qle_bool_iff in E. repeat split; auto. apply Qle_refl.
  - repeat split; auto; [apply Qle_refl|].
    apply Qnot_lt_le. intro H. apply Qlt_le_weak in H.
    apply Qle_bool_iff in H. congruence.
Qed.

Lemma qmin_cases (a x : Q) :
  (qmin a x = a \/ qmin a x = x) /\ qmin a x <= a /\ qmin a x <= x.
Proof.
  unfold qmin. destruct (Qle_bool a x) eqn:E.
  - apply Qle_bool_iff in E. repeat split; auto. apply Qle_refl.
  - repeat split; auto; [|apply Qle_refl].
    apply Qnot_lt_le. intro H. apply Qlt_le_weak in H.
    apply Qle_bool_iff in H. congruence.
Qed.

Lemma fold_qmax (l : list Q) (a : Q) :
  let m := fold_left qmax l a in
  (m = a \/ In m l) /\ a <= m /\ Forall (fun x => x <= m) l.
Proof.
  revert a. induction l as [|x l IH]; intro a; simpl.
  - repeat split; auto. apply Qle_refl.
  - destruct (IH (qmax a x)) as (Hm & Hle & Hall).
    destruct (qmax_cases a x) as (Hc & Ha & Hx).
    repeat split.
    + destruct Hm as [-> | Hm]; [|auto]. destruct Hc as [-> | ->]; auto.
    + eapply Qle_trans; eassumption.
    + constructor; [eapply Qle_trans; eassumption | exact Hall].
Qed.

Lemma fold_qmin (l : list Q) (a : Q) :
  let m := fold_left qmin l a in
  (m = a \/ In m l) /\ m <= a /\ Forall (fun x => m <= x) l.
Proof.
  revert a. induction l as [|x l IH]; intro a; simpl.
  - repeat split; auto. apply Qle_refl.
  - destruct (IH (qmin a x)) as (Hm & Hle & Hall).
    destruct (qmin_cases a x) as (Hc & Ha & Hx).
    repeat split.
    + destruct Hm as [-> | Hm]; [|auto]. destruct Hc as [-> | ->]; auto.
    + eapply Qle_trans; eassumption.
    + constructor; [eapply Qle_trans; eassumption | exact Hall].
Qed.

(** [maximum] is the greatest element and [minimum] the least. *)
Lemma maximum_spec (l : list Q) :
  l <> [] -> In (maximum l) l /\ Forall (fun x => x <= maximum l) l.
Proof.
  destruct l as [|x l]; [congruence|]. intros _. simpl.
  destruct (fold_qmax l x) as (Hm & Hle & Hall).
  split; [destruct Hm; auto|]. constructor; assumption.
Qed.

Lemma minimum_spec (l : list Q) :
  l <> [] -> In (minimum l) l /\ Forall (fun x => minimum l <= x) l.
Proof.
  destruct l as [|x l]; [congruence|]. intros _. simpl.
  destruct (fold_qmin l x) as (Hm & Hle & Hall).
  split; [destruct Hm; auto|]. constructor; assumption.
Qed.

Lemma more_recent_asym (a b : TrafficRecord) :
  more_recent a b = true -> more_recent b a = false.
Proof.
  unfold more_recent.
  destruct (date_count a), (date_count b); try discriminate; try reflexivity.
  intro H. apply Z.ltb_lt in H. apply Z.ltb_ge. lia.
Qed.

Lemma more_recent_le_trans (a b c : TrafficRecord) :
  more_recent b a = false -> more_recent c b = false -> more_recent c a = false.
Proof.
  unfold more_recent.
  destruct (date_count a), (date_count b), (date_count c);
    try discriminate; try reflexivity.
  intros H1 H2. apply Z.ltb_ge in H1. apply Z.ltb_ge in H2.
  apply Z.ltb_ge. lia.
Qed.

Lemma sort_by_date_desc_sorted (l : list TrafficRecord) :
  StronglySorted (in_order more_recent) (sort_by_date_desc l).
Proof.
  apply stable_sort_sorted.
  - exact more_recent_asym.
  - exact more_recent_le_trans.
Qed.

Lemma rows_of_nonempty (df : DataFrame) (name : str) :
  In name (map street_name (records df)) -> rows_of df name <> [].
Proof.
  intros Hin Hnil. apply in_map_iff in Hin. destruct Hin as (r & Hr & Hin).
  assert (H : In r (rows_of df name)).
  { unfold rows_of. apply filter_In. split; [exact Hin|].
    apply eqb_eq. exact Hr. }
  rewrite Hnil in H. exact H.
Qed.

(** The entry the builder stores under a key. *)
Lemma build_index_lookup (df : DataFrame) (name : str) (e : Entry) :
  lookup name (_build_street_index df) = Some e ->
  In name (map street_name (records df))
  /\ avg_count e
     = (if has_column (lit "date_count") (columns df)
        then mean (map total_count (firstn 3 (sort_by_date_desc (rows_of df name))))
        else mean (map total_count (rows_of df name)))
  /\ max_count e = maximum (map total_count (rows_of df name))
  /\ min_count e = minimum (map total_count (rows_of df name))
  /\ sample_size e = length (rows_of df name).
Proof.
  unfold _build_street_index.
  destruct (empty df); [discriminate|].
  intro H. apply lookup_map in H. destruct H as [Hin ->].
  apply (proj1 (distinct_in _ _)) in Hin.
  cbn [avg_count max_count min_count sample_size].
  repeat split; auto.
Qed.

Lemma build_index_keys (df : DataFrame) :
  empty df = false ->
  map fst (_build_street_index df) = distinct (map street_name (records df)).
Proof.
  intro H. unfold _build_street_index. rewrite H.
  rewrite map_map. simpl. apply map_id.
Qed.

Lemma build_index_hit (df : DataFrame) (name : str) :
  empty df = false ->
  In name (map street_name (records df)) ->
  exists e, lookup name (_build_street_index df) = Some e
            /\ sample_size e = length (rows_of df name).
Proof.
  intros He Hin. unfold _build_street_index. rewrite He.
  eexists. split.
  - apply lookup_map_in with (f := fun name => _). apply distinct_in. exact Hin.
  - reflexivity.
Qed.

End IndexFacts.

(** ** Runs of characters: [split] and [words] *)

Section RunsFacts.
Variable sep : ascii -> bool.

Local Abbreviation runs := (runs_from sep []).

Lemma runs_from_sep (cur : str) (c : ascii) (s : str) :
  sep c = true ->
  runs_from sep cur (c :: s) = flush cur ++ runs s.
Proof. intro H. simpl. rewrite H. destruct cur; reflexivity. Qed.

Lemma runs_from_run (cur a s : str) :
  Forall (fun c => sep c = false) a ->
  runs_from sep cur (a ++ s) = runs_from sep (cur ++ a) s.
Proof.
  intro H. revert cur. induction H as [|c a Hc _ IH]; intro cur; simpl.
  - rewrite app_nil_r. reflexivity.
  - rewrite Hc, IH, <- app_assoc. reflexivity.
Qed.

Lemma runs_skip_sep (c : ascii) (s : str) :
  sep c = true -> runs (c :: s) = runs s.
Proof. intro H. rewrite runs_from_sep by exact H. reflexivity. Qed.

(** A run that ends at a separator or at the end is the first run. *)
Lemma runs_first (t r : str) :
  token sep t -> at_sep sep r -> runs (t ++ r) = t :: runs r.
Proof.
  intros [Hne Ht] Hr.
  rewrite runs_from_run by exact Ht. simpl app.
  destruct r as [|c r]; simpl in Hr.
  - simpl. destruct t; [congruence | reflexivity].
  - rewrite runs_from_sep by exact Hr. 
    rewrite runs_skip_sep by exact Hr.
    destruct t; [congruence | reflexivity].
Qed.

Lemma runs_from_split (cur a : str) (c : ascii) (b : str) :
  sep c = true ->
  runs_from sep cur (a ++ c :: b) = runs_from sep cur a ++ runs b.
Proof.
  intro Hc. revert cur. induction a as [|d a IH]; intro cur.
  - simpl app. rewrite runs_from_sep by exact Hc. reflexivity.
  - simpl app. destruct (sep d) eqn:Hd.
    + simpl. rewrite Hd. destruct cur; simpl; rewrite IH; reflexivity.
    + simpl. rewrite Hd. apply IH.
Qed.

Lemma runs_split (a : str) (c : ascii) (b : str) :
  sep c = true -> runs (a ++ c :: b) = runs a ++ runs b.
Proof. apply runs_from_split. Qed.

Lemma runs_token (t : str) : token sep t -> runs t = [t].
Proof.
  intro H. rewrite <- (app_nil_r t) at 1.
  rewrite runs_first; [reflexivity | exact H | exact I].
Qed.

Lemma runs_from_tokens (cur s : str) :
  Forall (fun c => sep c = false) cur ->
  Forall (token sep) (runs_from sep cur s).
Proof.
  revert cur. induction s as [|c s IH]; intros cur Hcur; simpl.
  - destruct cur; constructor; [|constructor].
    split; [discriminate | exact Hcur].
  - destruct (sep c) eqn:Hc.
    + destruct cur; [apply IH; constructor|].
      constructor; [split; [discriminate | exact Hcur] | apply IH; constructor].
    + apply IH. apply Forall_app. split; [exact Hcur|].
      constructor; [exact Hc | constructor].
Qed.

Lemma runs_tokens (s : str) : Forall (token sep) (runs s).
Proof. apply runs_from_tokens. constructor. Qed.

(** Splitting what was joined by a separator gives the parts back. *)
Lemma runs_join (c0 : ascii) (toks : list str) :
  sep c0 = true ->
  Forall (token sep) toks ->
  runs (join [c0] toks) = toks.
Proof.
  intros Hc H. induction H as [|t toks Ht Hall IH]; [reflexivity|].
  destruct toks as [|t2 toks].
  - simpl. apply runs_token. exact Ht.
  - change (join [c0] (t :: t2 :: toks))
      with (t ++ c0 :: join [c0] (t2 :: toks)).
    rewrite runs_split by exact Hc.
    rewrite IH, runs_token by exact Ht. reflexivity.
Qed.

(** The runs for a coarser set of separators, through a join. *)
Lemma runs_concat_join (c0 : ascii) (toks : list str) :
  sep c0 = true ->
  runs (join [c0] toks) = concat (map runs toks).
Proof.
  intro Hc. induction toks as [|t toks IH]; [reflexivity|].
  destruct toks as [|t2 toks].
  - simpl. rewrite app_nil_r. reflexivity.
  - change (join [c0] (t :: t2 :: toks))
      with (t ++ c0 :: join [c0] (t2 :: toks)).
    rewrite runs_split by exact Hc. rewrite IH. reflexivity.
Qed.

(** The runs of a text are the runs of its runs for finer separators. *)
Lemma runs_refine (fine : ascii -> bool) (cur s : str) :
  (forall c, fine c = true -> sep c = true) ->
  concat (map runs (runs_from fine cur s)) = runs (cur ++ s).
Proof.
  intro Hfine. revert cur. induction s as [|c s IH]; intro cur.
  - simpl. rewrite app_nil_r. destruct cur; simpl; [reflexivity|].
    rewrite app_nil_r. reflexivity.
  - simpl. destruct (fine c) eqn:Hc.
    + apply Hfine in Hc.
      rewrite runs_split by exact Hc.
      destruct cur as [|x cur].
      * rewrite IH. reflexivity.
      * simpl map. simpl concat. rewrite IH. reflexivity.
    + rewrite IH, <- app_assoc. reflexivity.
Qed.

End RunsFacts.

(** ** Replacing a whole word *)

Section WholeWord.
Variables full abbrev : str.
Hypothesis full_nonempty : full <> [].
Hypothesis full_word : Forall (fun c => is_word c = true) full.

Local Abbreviation pattern := (whole_word full).
Local Abbreviation sub0 := (Re.sub_from (whole_word full) abbrev 0).

Lemma last_or_word (prev : option ascii) (w : str) :
  w <> [] -> Forall (fun c => is_word c = true) w ->
  Re.is_word_at (last_or prev w) = true.
Proof.
  intros Hne Hw. revert prev.
  induction Hw as [|c w Hc Hw IH]; [congruence|]. intro prev.
  destruct w as [|d w]; [exact Hc|].
  apply (IH ltac:(discriminate) (Some c)).
Qed.

Lemma lit_k_app (R : Type) (l s' : str) (prev : option ascii)
      (k : option ascii -> str -> option R) :
  Re.lit_k l prev (l ++ s') k = k (last_or prev l) s'.
Proof.
  revert prev. induction l as [|x l IH]; intro prev; simpl; [reflexivity|].
  rewrite Ascii.eqb_refl. apply IH.
Qed.

Lemma lit_k_miss (R : Type) (l s : str) (prev : option ascii)
      (k : option ascii -> str -> option R) :
  startswith s l = false -> Re.lit_k l prev s k = None.
Proof.
  revert s prev. induction l as [|x l IH]; intros s prev; simpl.
  - destruct s; discriminate.
  - destruct s as [|c s]; [reflexivity|]. simpl.
    destruct (Ascii.eqb x c); simpl; [apply IH | reflexivity].
Qed.

Lemma startswith_app (s l : str) :
  startswith s l = true -> s = l ++ skipn (length l) s.
Proof.
  revert s. induction l as [|x l IH]; intro s; simpl.
  - destruct s; reflexivity.
  - destruct s as [|c s]; [discriminate|].
    intro H. apply andb_true_iff in H. destruct H as [Hx Hl].
    apply Ascii.eqb_eq in Hx. subst c. f_equal. apply IH. exact Hl.
Qed.

Lemma startswith_prefix (l r : str) : startswith (l ++ r) l = true.
Proof.
  induction l as [|x l IH]; simpl; [destruct r; reflexivity|].
  rewrite Ascii.eqb_refl. exact IH.
Qed.

Lemma skipn_prefix (l r : str) : skipn (length l) (l ++ r) = r.
Proof. induction l as [|x l IH]; simpl; [reflexivity | exact IH]. Qed.

Lemma full_head_word (s : str) :
  Re.is_word_at (hd_error (full ++ s)) = true.
Proof.
  destruct full as [|x l]; [congruence|].
  inversion full_word; subst. assumption.
Qed.

(** The pattern matches exactly where [hits] says, over the length of
    the word, and captures nothing. *)
Lemma match_here_whole_word (prev : option ascii) (s : str) :
  Re.match_here pattern prev s
  = if hits full prev s then Some (length full, None) else None.
Proof.
  unfold Re.match_here, whole_word, hits. cbn [Re.run].
  destruct (startswith s full) eqn:Hs.
  - apply startswith_app in Hs.
    remember (skipn (length full) s) as s' eqn:Es in Hs. clear Es. subst s.
    rewrite skipn_prefix, full_head_word, lit_k_app.
    rewrite last_or_word by assumption.
    destruct (Re.is_word_at prev), (Re.is_word_at (hd_error s'));
      simpl; try reflexivity.
    rewrite length_app. do 2 f_equal. lia.
  - rewrite andb_false_r. simpl.
    rewrite lit_k_miss by exact Hs.
    destruct (xorb _ _); reflexivity.
Qed.

Lemma sub_skip (r : Re.regex) (repl a b : str) (prev : option ascii) :
  Re.sub_from r repl (length a) prev (a ++ b)
  = Re.sub_from r repl 0 (last_or prev a) b.
Proof.
  revert prev. induction a as [|c a IH]; intro prev; [reflexivity|].
  simpl. apply IH.
Qed.

Lemma hits_nil (prev : option ascii) : hits full prev [] = false.
Proof.
  unfold hits. destruct full; [congruence|]. simpl.
  rewrite andb_false_r. reflexivity.
Qed.

Lemma sub_nil (prev : option ascii) : sub0 prev [] = [].
Proof.
  simpl. rewrite match_here_whole_word, hits_nil. reflexivity.
Qed.

Lemma sub_cons (prev : option ascii) (c : ascii) (s : str) :
  sub0 prev (c :: s)
  = if hits full prev (c :: s)
    then abbrev ++ Re.sub_from pattern abbrev (pred (length full)) (Some c) s
    else c :: sub0 (Some c) s.
Proof.
  cbn [Re.sub_from]. rewrite match_here_whole_word.
  destruct (hits full prev (c :: s)); [|reflexivity].
  destruct full; [congruence | reflexivity].
Qed.

(** A character that is not a word character is copied. *)
Lemma sub_sep (prev : option ascii) (c : ascii) (s : str) :
  is_word c = false -> sub0 prev (c :: s) = c :: sub0 (Some c) s.
Proof.
  intro Hc. rewrite sub_cons.
  replace (hits full prev (c :: s)) with false; [reflexivity|].
  unfold hits. destruct full as [|x l]; [congruence|].
  inversion full_word; subst. simpl.
  destruct (Ascii.eqb x c) eqn:E.
  - apply Ascii.eqb_eq in E. congruence.
  - simpl. rewrite andb_false_r. reflexivity.
Qed.

(** Inside a word nothing is replaced. *)
Lemma sub_inside (prev : option ascii) (w r : str) :
  Re.is_word_at prev = true ->
  Forall (fun c => is_word c = true) w ->
  sub0 prev (w ++ r) = w ++ sub0 (last_or prev w) r.
Proof.
  intros Hp Hw. revert prev Hp.
  induction Hw as [|c w Hc _ IH]; intros prev Hp; [reflexivity|].
  simpl app. rewrite sub_cons.
  unfold hits. rewrite Hp. simpl. f_equal.
  apply (IH (Some c)). exact Hc.
Qed.

(** A word that the pattern's literal begins is at least that long. *)
Lemma startswith_word (l w r : str) :
  Forall (fun c => is_word c = true) l ->
  Forall (fun c => is_word c = true) w ->
  at_sep (fun c => negb (is_word c)) r ->
  startswith (w ++ r) l = true ->
  exists w', w = l ++ w'.
Proof.
  intros Hl Hw Hr. revert w Hw.
  induction Hl as [|x l Hx _ IH]; intros w Hw Hs.
  - exists w. reflexivity.
  - destruct w as [|c w].
    + simpl in Hs. destruct r as [|c r]; [discriminate|].
      simpl in Hr. apply andb_true_iff in Hs. destruct Hs as [Hs _].
      apply Ascii.eqb_eq in Hs. subst c.
      rewrite Hx in Hr. discriminate.
    + simpl in Hs. apply andb_true_iff in Hs. destruct Hs as [Hc Hs].
      apply Ascii.eqb_eq in Hc. subst c.
      inversion Hw; subst.
      destruct (IH w ltac:(assumption) Hs) as [w' ->].
      exists w'. reflexivity.
Qed.

(** At the start of a word the pattern matches exactly when the word
    is the full form. *)
Lemma hits_word (prev : option ascii) (w r : str) :
  Re.is_word_at prev = false ->
  Forall (fun c => is_word c = true) w ->
  at_sep (fun c => negb (is_word c)) r ->
  hits full prev (w ++ r) = Str.eqb w full.
Proof.
  intros Hp Hw Hr. unfold hits. rewrite Hp. simpl.
  destruct (startswith (w ++ r) full) eqn:Hs.
  - destruct (@startswith_word full w r full_word Hw Hr Hs) as [w' ->].
    rewrite <- app_assoc, skipn_prefix. simpl.
    destruct w' as [|d w'].
    + rewrite app_nil_r, eqb_refl. simpl.
      destruct r as [|c r]; [reflexivity|]. simpl in *.
      rewrite Hr. reflexivity.
    + apply Forall_app in Hw. destruct Hw as [_ Hw].
      inversion Hw; subst. simpl.
      replace (is_word d) with true by (symmetry; assumption). simpl.
      symmetry. apply eqb_neq. intro E.
      apply (f_equal (@length ascii)) in E.
      rewrite length_app in E. simpl in E. lia.
  - simpl. symmetry. apply eqb_neq. intros ->.
    rewrite startswith_prefix in Hs. discriminate.
Qed.

(** A whole word is replaced when it is the full form and copied
    otherwise. *)
Lemma sub_word (prev : option ascii) (w r : str) :
  Re.is_word_at prev = false ->
  w <> [] ->
  Forall (fun c => is_word c = true) w ->
  at_sep (fun c => negb (is_word c)) r ->
  sub0 prev (w ++ r) = abbrev_word w (full, abbrev) ++ sub0 (last_or prev w) r.
Proof.
  intros Hp Hne Hw Hr.
  pose proof (hits_word prev _ _ Hp Hw Hr) as Hh.
  destruct w as [|c w]; [congruence|].
  simpl app in *. rewrite sub_cons, Hh.
  unfold abbrev_word. cbn [fst snd].
  destruct (Str.eqb (c :: w) full) eqn:E.
  - apply eqb_eq in E. f_equal.
    rewrite <- E. cbn [length pred]. apply sub_skip.
  - cbn [app]. f_equal. inversion Hw; subst.
    apply (sub_inside (Some c)); assumption.
Qed.

End WholeWord.

(** ** Abbreviation acts on the words of a text *)

Section WordsOfSub.
Variables full abbrev : str.
Hypothesis full_nonempty : full <> [].
Hypothesis full_word : Forall (fun c => is_word c = true) full.
Hypothesis abbrev_nonempty : abbrev <> [].
Hypothesis abbrev_word_chars : Forall (fun c => is_word c = true) abbrev.

Local Abbreviation wsep := (fun c : ascii => negb (is_word c)).
Local Abbreviation sub0 := (Re.sub_from (whole_word full) abbrev 0).
Local Abbreviation short := (fun w : str => abbrev_word w (full, abbrev)).

Lemma word_token (w : str) :
  w <> [] -> Forall (fun c => is_word c = true) w -> token wsep w.
Proof.
  intros Hne Hw. split; [exact Hne|].
  eapply Forall_impl; [|exact Hw].
  intros c Hc. simpl. rewrite Hc. reflexivity.
Qed.

Lemma word_span (s : str) :
  exists w r, s = w ++ r
              /\ Forall (fun c => is_word c = true) w
              /\ at_sep wsep r.
Proof.
  induction s as [|c s (w & r & E & Hw & Hr)].
  - exists [], []. repeat split. constructor.
  - destruct (is_word c) eqn:Hc.
    + exists (c :: w), r. subst s. repeat split; [|exact Hr].
      constructor; assumption.
    + exists [], (c :: s). repeat split; [constructor|].
      simpl. rewrite Hc. reflexivity.
Qed.

Lemma sub_at_sep (prev : option ascii) (r : str) :
  at_sep wsep r -> at_sep wsep (sub0 prev r).
Proof.
  destruct r as [|c r]; intro H.
  - rewrite sub_nil by assumption. exact I.
  - simpl in H. apply negb_true_iff in H.
    rewrite sub_sep by assumption. simpl. rewrite H. reflexivity.
Qed.

Lemma short_token (w : str) :
  w <> [] -> Forall (fun c => is_word c = true) w -> token wsep (short w).
Proof.
  intros Hne Hw. unfold abbrev_word. cbn [fst snd].
  destruct (Str.eqb w full); apply word_token; assumption.
Qed.

Lemma sub_words_bounded (n : nat) :
  forall (s : str) (prev : option ascii),
    length s <= n ->
    Re.is_word_at prev = false \/ at_sep wsep s ->
    words (sub0 prev s) = map short (words s)
    /\ (Forall (fun w => w <> full) (words s) -> sub0 prev s = s).
Proof.
  induction n as [|n IH]; intros s prev Hn Hstart.
  - destruct s; [|simpl in Hn; lia].
    rewrite sub_nil by assumption. split; reflexivity.
  - destruct s as [|c s].
    { rewrite sub_nil by assumption. split; reflexivity. }
    destruct (is_word c) eqn:Hc.
    + assert (Hp : Re.is_word_at prev = false).
      { destruct Hstart as [H | H]; [exact H|].
        simpl in H. rewrite Hc in H. discriminate. }
      destruct (word_span (c :: s)) as (w & r & E & Hw & Hr).
      assert (Hne : w <> []).
      { intros ->. simpl in E. subst r. simpl in Hr.
        rewrite Hc in Hr. discriminate. }
      assert (Hlen : length r <= n).
      { apply (f_equal (@length ascii)) in E.
        rewrite length_app in E. simpl in E, Hn.
        destruct w; [congruence | simpl in E; lia]. }
      rewrite E.
      rewrite (sub_word full abbrev full_nonempty full_word prev w r Hp Hne Hw Hr).
      destruct (IH r (last_or prev w) Hlen (or_intror Hr)) as [IHw IHid].
      unfold words in *.
      rewrite (runs_first wsep w r (word_token w Hne Hw) Hr).
      rewrite (runs_first wsep (short w) _ (short_token w Hne Hw)
                          (sub_at_sep (last_or prev w) r Hr)).
      split.
      * simpl map. rewrite IHw. reflexivity.
      * intro Hall. inversion Hall as [|? ? Hwf Hrest]; subst.
        rewrite (IHid Hrest). f_equal.
        unfold abbrev_word. cbn [fst snd].
        apply eqb_neq in Hwf. rewrite Hwf. reflexivity.
    + rewrite (sub_sep full abbrev full_nonempty full_word prev c s Hc).
      assert (Hsep : wsep c = true) by (simpl; rewrite Hc; reflexivity).
      assert (Hlen : length s <= n) by (simpl in Hn; lia).
      destruct (IH s (Some c) Hlen (or_introl Hc)) as [IHw IHid].
      unfold words in *.
      rewrite !(runs_skip_sep wsep c _ Hsep).
      split; [exact IHw|].
      intro Hall. rewrite (IHid Hall). reflexivity.
Qed.

Lemma sub_words (s : str) :
  words (Re.sub (whole_word full) abbrev s) = map short (words s).
Proof.
  apply (sub_words_bounded (length s) s None (le_n _)). left. reflexivity.
Qed.

Lemma sub_without_full (s : str) :
  Forall (fun w => w <> full) (words s) ->
  Re.sub (whole_word full) abbrev s = s.
Proof.
  apply (sub_words_bounded (length s) s None (le_n _)). left. reflexivity.
Qed.

End WordsOfSub.

(** ** The abbreviation table *)

Section Abbreviations.

Lemma word_pair_spec (fa : str * str) :
  word_pair fa = true ->
  fst fa <> []
  /\ Forall (fun c => is_word c = true) (fst fa)
  /\ snd fa <> []
  /\ Forall (fun c => is_word c = true) (snd fa).
Proof.
  destruct fa as [f a]. unfold word_pair. cbn [fst snd].
  destruct f as [|x f]; [discriminate|].
  destruct a as [|y a]; [discriminate|].
  intro H. apply andb_true_iff in H. destruct H as [Hf Ha].
  rewrite forallb_forall in Hf, Ha.
  repeat split; try discriminate; apply Forall_forall; assumption.
Qed.

Lemma words_abbreviate (s : str) (fa : str * str) :
  word_pair fa = true ->
  words (abbreviate s fa) = map (fun w => abbrev_word w fa) (words s).
Proof.
  intro H. apply word_pair_spec in H. destruct H as (H1 & H2 & H3 & H4).
  destruct fa as [f a]. unfold abbreviate. cbn [fst snd] in *.
  apply sub_words; assumption.
Qed.

Lemma abbreviate_without_full (s : str) (fa : str * str) :
  word_pair fa = true ->
  Forall (fun w => w <> fst fa) (words s) ->
  abbreviate s fa = s.
Proof.
  intro H. apply word_pair_spec in H. destruct H as (H1 & H2 & H3 & H4).
  destruct fa as [f a]. unfold abbreviate. cbn [fst snd] in *.
  apply sub_without_full; assumption.
Qed.

Lemma words_abbreviations (l : list (str * str)) (s : str) :
  forallb word_pair l = true ->
  words (fold_left abbreviate l s)
  = map (fun w => fold_left abbrev_word l w) (words s).
Proof.
  revert s. induction l as [|fa l IH]; intros s H; simpl.
  - symmetry. apply map_id.
  - simpl in H. apply andb_true_iff in H. destruct H as [Hfa Hl].
    rewrite (IH _ Hl), (words_abbreviate _ _ Hfa), map_map. reflexivity.
Qed.

Lemma abbreviations_without_full (l : list (str * str)) (s : str) :
  forallb word_pair l = true ->
  (forall fa, In fa l -> Forall (fun w => w <> fst fa) (words s)) ->
  fold_left abbreviate l s = s.
Proof.
  induction l as [|fa l IH]; intros H Hall; simpl; [reflexivity|].
  simpl in H. apply andb_true_iff in H. destruct H as [Hfa Hl].
  rewrite (abbreviate_without_full s fa Hfa) by (apply Hall; left; reflexivity).
  apply IH; [exact Hl|]. intros fa' Hin. apply Hall. right. exact Hin.
Qed.

Lemma abbrev_word_cases (w : str) (fa : str * str) :
  (abbrev_word w fa = w /\ (w = fst fa -> w = snd fa))
  \/ (abbrev_word w fa = snd fa /\ w = fst fa).
Proof.
  unfold abbrev_word. destruct (Str.eqb w (fst fa)) eqn:E.
  - right. apply eqb_eq in E. auto.
  - left. apply eqb_neq in E. split; [reflexivity|]. intro. contradiction.
Qed.

Lemma fold_abbrev_cases (l : list (str * str)) (w : str) :
  fold_left abbrev_word l w = w
  \/ exists fa, In fa l /\ fold_left abbrev_word l w = snd fa.
Proof.
  revert w. induction l as [|fa l IH]; intro w; simpl; [auto|].
  destruct (IH (abbrev_word w fa)) as [E | (fa' & Hin & E)].
  - rewrite E. destruct (abbrev_word_cases w fa) as [[E' _] | [E' _]].
    + left. exact E'.
    + right. exists fa. auto.
  - right. exists fa'. auto.
Qed.

Lemma fold_abbrev_keep (l : list (str * str)) (w : str) :
  (forall fa, In fa l -> w <> fst fa) ->
  fold_left abbrev_word l w = w.
Proof.
  induction l as [|fa l IH]; intro H; simpl; [reflexivity|].
  unfold abbrev_word at 2.
  assert (E : Str.eqb w (fst fa) = false).
  { apply eqb_neq. apply H. left. reflexivity. }
  rewrite E. apply IH. intros fa' Hin. apply H. right. exact Hin.
Qed.

(** When no abbreviation is a full form, no word of the result is a
    full form. *)
Lemma fold_abbrev_not_full (l : list (str * str)) :
  (forall fa fa', In fa l -> In fa' l -> snd fa <> fst fa') ->
  forall w fa, In fa l -> fold_left abbrev_word l w <> fst fa.
Proof.
  induction l as [|fa0 l IH]; intros Hd w fa Hin; [destruct Hin|].
  assert (Hd' : forall fa fa', In fa l -> In fa' l -> snd fa <> fst fa').
  { intros a b Ha Hb. apply Hd; right; assumption. }
  simpl. destruct (abbrev_word_cases w fa0) as [[E Hw] | [E Hw]]; rewrite E.
  - destruct Hin as [<- | Hin]; [|apply IH; assumption].
    destruct (fold_abbrev_cases l w) as [E' | (fa' & Hin' & E')]; rewrite E'.
    + intro Hc. specialize (Hw Hc).
      apply (Hd fa0 fa0); [left; reflexivity | left; reflexivity|].
      congruence.
    + apply Hd; [right; exact Hin' | left; reflexivity].
  - rewrite fold_abbrev_keep.
    + apply Hd; [left; reflexivity | exact Hin].
    + intros fa' Hin'. apply Hd; [left; reflexivity | right; exact Hin'].
Qed.

Lemma short_forms_stay_spec (l : list (str * str)) :
  short_forms_stay l = true ->
  forall fa fa', In fa l -> In fa' l -> snd fa <> fst fa'.
Proof.
  unfold short_forms_stay. intros H fa fa' Hin Hin'.
  rewrite forallb_forall in H. specialize (H fa Hin).
  rewrite forallb_forall in H. specialize (H fa' Hin').
  apply negb_true_iff in H. apply eqb_neq. exact H.
Qed.

End Abbreviations.

(** ** Case, margins and spacing of a normalised name *)

Section Shape.

Lemma upper_char_not_lower (c : ascii) : is_lower (upper_char c) = false.
Proof. destruct c as [[] [] [] [] [] [] [] []]; reflexivity. Qed.

Lemma upper_not_lower (s : str) :
  Forall (fun c => is_lower c = false) (upper s).
Proof.
  induction s; simpl; constructor; auto using upper_char_not_lower.
Qed.

Lemma upper_fixed (s : str) :
  Forall (fun c => is_lower c = false) s -> upper s = s.
Proof.
  induction 1 as [|c s Hc _ IH]; simpl; [reflexivity|].
  unfold upper_char. rewrite Hc. f_equal. exact IH.
Qed.

Variable P : ascii -> Prop.

Lemma lstrip_keeps (s : str) : Forall P s -> Forall P (lstrip s).
Proof.
  induction 1 as [|c s Hc Hs IH]; simpl; [constructor|].
  destruct (is_space c); [exact IH | constructor; assumption].
Qed.

Lemma strip_keeps (s : str) : Forall P s -> Forall P (strip s).
Proof.
  intro H. unfold strip, rstrip.
  apply Forall_rev, lstrip_keeps, Forall_rev, lstrip_keeps. exact H.
Qed.

Lemma sub_from_keeps (r : Re.regex) (repl : str) :
  Forall P repl ->
  forall (s : str) (skip : nat) (prev : option ascii),
    Forall P s -> Forall P (Re.sub_from r repl skip prev s).
Proof.
  intros Hrepl s. induction s as [|c s IH]; intros skip prev Hs; simpl.
  - destruct skip; [|constructor].
    destruct (Re.match_here r prev []); [exact Hrepl | constructor].
  - inversion Hs; subst.
    destruct skip; [|apply IH; assumption].
    destruct (Re.match_here r prev (c :: s)) as [[[|n] cap]|].
    + apply Forall_app. split; [exact Hrepl|].
      constructor; [assumption | apply IH; assumption].
    + apply Forall_app. split; [exact Hrepl | apply IH; assumption].
    + constructor; [assumption | apply IH; assumption].
Qed.

Lemma abbreviations_keep (l : list (str * str)) (s : str) :
  Forall (fun fa => Forall P (snd fa)) l ->
  Forall P s -> Forall P (fold_left abbreviate l s).
Proof.
  intro Hl. revert s. induction Hl as [|fa l Hfa _ IH]; intros s Hs; simpl.
  - exact Hs.
  - apply IH. unfold abbreviate, Re.sub. apply sub_from_keeps; assumption.
Qed.

Lemma runs_from_keep (sep : ascii -> bool) (s cur : str) :
  Forall P cur -> Forall P s -> Forall (Forall P) (runs_from sep cur s).
Proof.
  revert cur. induction s as [|c s IH]; intros cur Hcur Hs; simpl.
  - destruct cur; constructor; [assumption | constructor].
  - inversion Hs; subst. destruct (sep c).
    + destruct cur; [apply IH; [constructor | assumption]|].
      constructor; [assumption | apply IH; [constructor | assumption]].
    + apply IH; [|assumption].
      apply Forall_app. split; [assumption | constructor; [assumption | constructor]].
Qed.

Lemma join_keeps (sep : str) (toks : list str) :
  Forall P sep -> Forall (Forall P) toks -> Forall P (join sep toks).
Proof.
  intros Hsep H. induction H as [|t toks Ht Htoks IH]; [constructor|].
  destruct toks as [|t2 toks]; [exact Ht|].
  change (join sep (t :: t2 :: toks)) with (t ++ sep ++ join sep (t2 :: toks)).
  apply Forall_app. split; [exact Ht|].
  apply Forall_app. split; [exact Hsep | exact IH].
Qed.

End Shape.

Section Margins.

Lemma lstrip_clean (s : str) : starts_clean s -> lstrip s = s.
Proof.
  destruct s as [|c s]; simpl; [reflexivity|]. intros ->. reflexivity.
Qed.

Lemma strip_clean (s : str) :
  starts_clean s -> starts_clean (rev s) -> strip s = s.
Proof.
  intros H1 H2. unfold strip, rstrip.
  rewrite (lstrip_clean s H1), (lstrip_clean _ H2). apply rev_involutive.
Qed.

Lemma token_starts_clean (t rest : str) :
  token is_space t -> starts_clean (t ++ rest).
Proof.
  intros [Hne Ht]. destruct t as [|c t]; [congruence|].
  inversion Ht; subst. assumption.
Qed.

Lemma token_rev (t : str) : token is_space t -> token is_space (rev t).
Proof.
  intros [Hne Ht]. split.
  - intro E. apply (f_equal (@rev ascii)) in E.
    rewrite rev_involutive in E. simpl in E. congruence.
  - apply Forall_rev. exact Ht.
Qed.

(** A join of tokens ends with its last token. *)
Lemma join_ends (sep : str) (toks : list str) :
  toks <> [] -> exists pre t, In t toks /\ join sep toks = pre ++ t.
Proof.
  induction toks as [|t toks IH]; [congruence|]. intros _.
  destruct toks as [|t2 toks].
  - exists [], t. split; [left; reflexivity | reflexivity].
  - destruct (IH ltac:(discriminate)) as (pre & t' & Hin & E).
    exists (t ++ sep ++ pre), t'. split; [right; exact Hin|].
    change (join sep (t :: t2 :: toks)) with (t ++ sep ++ join sep (t2 :: toks)).
    rewrite E, <- !app_assoc. reflexivity.
Qed.

Lemma strip_join (toks : list str) :
  Forall (token is_space) toks ->
  strip (join (lit " ") toks) = join (lit " ") toks.
Proof.
  intro H. destruct toks as [|t toks]; [reflexivity|].
  apply strip_clean.
  - inversion H; subst.
    destruct toks as [|t2 toks].
    + simpl. rewrite <- (app_nil_r t). apply token_starts_clean. assumption.
    + change (join (lit " ") (t :: t2 :: toks))
        with (t ++ lit " " ++ join (lit " ") (t2 :: toks)).
      apply token_starts_clean. assumption.
  - destruct (join_ends (lit " ") (t :: toks) ltac:(discriminate))
      as (pre & t' & Hin & E).
    rewrite E, rev_app_distr. apply token_starts_clean.
    apply token_rev. rewrite Forall_forall in H. apply H. exact Hin.
Qed.

End Margins.

(** ** Normalising a normalised name *)

Section Idempotence.

Lemma abbreviations_are_words : forallb word_pair abbreviations = true.
Proof. reflexivity. Qed.

Lemma abbreviations_stay : short_forms_stay abbreviations = true.
Proof. reflexivity. Qed.

Lemma abbreviations_upper :
  Forall (fun fa : str * str => Forall (fun c => is_lower c = false) (snd fa))
         abbreviations.
Proof. repeat constructor. Qed.

Lemma space_is_not_word (c : ascii) :
  is_space c = true -> negb (is_word c) = true.
Proof.
  destruct c as [[] [] [] [] [] [] [] []]; vm_compute; intro H;
    first [reflexivity | discriminate H].
Qed.

(** The words of a text survive the collapse of its spacing. *)
Lemma words_collapse (s : str) :
  words (join (lit " ") (split s)) = words s.
Proof.
  unfold words, split.
  rewrite (runs_concat_join (fun c => negb (is_word c)) " "%char)
    by reflexivity.
  apply (runs_refine (fun c => negb (is_word c)) is_space []).
  exact space_is_not_word.
Qed.

(** A non-empty input is normalised by the four steps in turn. *)
Lemma normalize_steps (s : str) :
  s <> [] ->
  _normalize_street_name s
  = join (lit " ") (split (fold_left abbreviate abbreviations (strip (upper s)))).
Proof. destruct s; [congruence | reflexivity]. Qed.

(** A text of this shape is left alone by each of the four steps. *)
Lemma normalize_fixed (z : str) :
  Forall (fun c => is_lower c = false) z ->
  (forall fa, In fa abbreviations -> Forall (fun w => w <> fst fa) (words z)) ->
  let y := join (lit " ") (split z) in
  _normalize_street_name y = y.
Proof.
  intros Hcase Hwords y.
  destruct y as [|c y'] eqn:Ey; [reflexivity|]. rewrite <- Ey.
  rewrite normalize_steps by (rewrite Ey; discriminate).
  assert (Htok : Forall (token is_space) (split z)) by apply runs_tokens.
  assert (Hup : upper y = y).
  { apply upper_fixed. subst y. apply join_keeps.
    - repeat constructor.
    - apply runs_from_keep; [constructor | exact Hcase]. }
  assert (Hstrip : strip y = y) by (subst y; apply strip_join; exact Htok).
  assert (Habbr : fold_left abbreviate abbreviations y = y).
  { apply abbreviations_without_full; [exact abbreviations_are_words|].
    intros fa Hin. subst y. rewrite words_collapse. apply Hwords. exact Hin. }
  assert (Hsplit : split y = split z).
  { subst y. unfold split. apply (runs_join is_space " "%char); [reflexivity|].
    exact Htok. }
  rewrite Hup, Hstrip, Habbr, Hsplit. reflexivity.
Qed.

End Idempotence.

(** ** The classifier: tiers and the unknown sentinel *)

Section Classifier.
Local Open Scope Q_scope.

Lemma Qltb_lt (x y : Q) : Qltb x y = true <-> x < y.
Proof.
  unfold Qltb. rewrite negb_true_iff. split.
  - intro H. apply Qnot_le_lt. intro Hle.
    apply Qle_bool_iff in Hle. congruence.
  - intro H. destruct (Qle_bool y x) eqn:E; [|reflexivity].
    apply Qle_bool_iff in E. exfalso. exact (Qlt_not_le _ _ H E).
Qed.

Lemma Qltb_ge (x y : Q) : Qltb x y = false <-> y <= x.
Proof.
  unfold Qltb. rewrite negb_false_iff. apply Qle_bool_iff.
Qed.

(** The tier of a count, by the intervals of the thresholds. *)
Lemma tier_of_intervals (count : Q) :
  (count < 3000 /\ tier_of count = very_low)
  \/ (3000 <= count /\ count < 8000 /\ tier_of count = low)
  \/ (8000 <= count /\ count < 15000 /\ tier_of count = moderate)
  \/ (15000 <= count /\ count < 25000 /\ tier_of count = high)
  \/ (25000 <= count /\ tier_of count = very_high).
Proof.
  unfold tier_of, TRAFFIC_THRESHOLDS, below.
  destruct (Qltb count 3000) eqn:E1;
    [apply Qltb_lt in E1; auto | apply Qltb_ge in E1].
  destruct (Qltb count 8000) eqn:E2;
    [apply Qltb_lt in E2; auto | apply Qltb_ge in E2].
  destruct (Qltb count 15000) eqn:E3;
    [apply Qltb_lt in E3; auto 6 | apply Qltb_ge in E3].
  destruct (Qltb count 25000) eqn:E4;
    [apply Qltb_lt in E4; auto 8 | apply Qltb_ge in E4].
  auto 10.
Qed.


Lemma get_traffic_level_known (self : TrafficData) (name : str) (count : Q) :
  get_traffic_count self name = Some count ->
  get_traffic_level self name
  = (known (tier_of count), CONGESTION_MULTIPLIERS (tier_of count), Some count).
Proof.
  intro H. unfold get_traffic_level. rewrite H. reflexivity.
Qed.

Lemma get_traffic_level_unknown (self : TrafficData) (name : str) :
  get_traffic_count self name = None ->
  get_traffic_level self name = (unknown, 1, None).
Proof.
  intro H. unfold get_traffic_level. rewrite H. reflexivity.
Qed.

(** An exact hit of the index decides the count. *)
Lemma get_traffic_count_exact (self : TrafficData) (name : str) (e : Entry) :
  empty (traffic_df self) = false ->
  lookup (_normalize_street_name name) (street_index self) = Some e ->
  get_traffic_count self name = Some (avg_count e).
Proof.
  intros Hne Hl. unfold get_traffic_count. rewrite Hne, Hl. reflexivity.
Qed.

Lemma no_partial_match (idx : list (str * Entry)) (normalized : str) :
  (forall k e, In (k, e) idx ->
               contains k normalized = false /\ contains normalized k = false) ->
  flat_map (fun kv : str * Entry =>
              let (indexed_street, data) := kv in
              if contains indexed_street normalized
                 || contains normalized indexed_street
              then [avg_count data] else []) idx = [].
Proof.
  induction idx as [|[k e] idx IH]; intro H; simpl; [reflexivity|].
  assert (Hk : In (k, e) ((k, e) :: idx)) by (left; reflexivity).
  apply H in Hk. destruct Hk as [H1 H2]. rewrite H1, H2. simpl.
  apply IH. intros k' e' Hin. apply (H k' e'). right. exact Hin.
Qed.

Lemma build_index_of_empty (df : DataFrame) :
  empty df = true -> _build_street_index df = [].
Proof.
  intro H. unfold _build_street_index. rewrite H. reflexivity.
Qed.

End Classifier.

(** C4: a looked-up count is classified by half-open ascending thresholds
    (below 3000 very_low, from 3000 and below 8000 low, from 8000 and below
    15000 moderate, from 15000 and below 25000 high, from 25000 very_high)
    and the level comes with the fixed multiplier of its tier (0.90, 0.95,
    1.00, 1.15, 1.30). *)
Theorem C4_thresholds_and_multipliers :
  forall (self : TrafficData) (name : str) (count : Q),
    get_traffic_count self name = Some count ->
    exists (t : tier) (m : Q),
      get_traffic_level self name = (known t, m, Some count)
      /\ ((count < 3000 /\ t = very_low /\ m == 90 # 100)
          \/ (3000 <= count /\ count < 8000 /\ t = low /\ m == 95 # 100)
          \/ (8000 <= count /\ count < 15000 /\ t = moderate /\ m == 1)
          \/ (15000 <= count /\ count < 25000 /\ t = high /\ m == 115 # 100)
          \/ (25000 <= count /\ t = very_high /\ m == 130 # 100))%Q.
Proof.
  intros self name count H.
  exists (tier_of count), (CONGESTION_MULTIPLIERS (tier_of count)).
  split; [apply get_traffic_level_known; exact H|].
  destruct (tier_of_intervals count)
    as [[H1 ->] | [(H1 & H2 & ->) | [(H1 & H2 & ->) | [(H1 & H2 & ->) | [H1 ->]]]]];
    simpl; intuition (auto; reflexivity).
Qed.

Lemma C4_thresholds_witness :
  get_traffic_count boundary_data (lit "B ST") = Some 8000%Q
  /\ exists (t : tier) (m : Q),
      get_traffic_level boundary_data (lit "B ST") = (known t, m, Some 8000%Q)
      /\ ((8000 < 3000 /\ t = very_low /\ m == 90 # 100)
          \/ (3000 <= 8000 /\ 8000 < 8000 /\ t = low /\ m == 95 # 100)
          \/ (8000 <= 8000 /\ 8000 < 15000 /\ t = moderate /\ m == 1)
          \/ (15000 <= 8000 /\ 8000 < 25000 /\ t = high /\ m == 115 # 100)
          \/ (25000 <= 8000 /\ t = very_high /\ m == 130 # 100))%Q.
Proof.
  split; [reflexivity|].
  apply (@C4_thresholds_and_multipliers boundary_data (lit "B ST") 8000%Q).
  reflexivity.
Defined.

(** The counts on the thresholds fall in the upper tier. *)
Example boundary_counts :
  get_traffic_level boundary_data (lit "A ST") = (known low, (95 # 100)%Q, Some 3000%Q)
  /\ get_traffic_level boundary_data (lit "B ST") = (known moderate, 1%Q, Some 8000%Q)
  /\ get_traffic_level boundary_data (lit "C ST")
     = (known very_high, (130 # 100)%Q, Some 25000%Q).
Proof. repeat split. Qed.

(** C6: a street that no index key matches, exactly or as a substring
    either way, classifies as (unknown, 1.0, no count); and for an index
    built from an empty dataset the statistics are the no-data sentinel and
    every street classifies as unknown. *)
Theorem C6_unknown_when_no_match :
  (forall (self : TrafficData) (name : str),
      lookup (_normalize_street_name name) (street_index self) = None ->
      (forall k e, In (k, e) (street_index self) ->
                   contains k (_normalize_street_name name) = false
                   /\ contains (_normalize_street_name name) k = false) ->
      get_traffic_level self name = (unknown, 1%Q, None))
  /\ (forall (file : option Csv),
         empty (_load_data file) = true ->
         street_index (init file) = []
         /\ get_stats (init file) = no_data
         /\ forall name, get_traffic_level (init file) name = (unknown, 1%Q, None))
  /\ (forall cols, empty (_load_data (Some {| csv_columns := cols; csv_rows := [] |})) = true)
  /\ empty (_load_data None) = true.
Proof.
  split; [|split; [|split]].
  - intros self name Hl Hp.
    apply get_traffic_level_unknown. unfold get_traffic_count.
    destruct (empty (traffic_df self)); [reflexivity|].
    rewrite Hl, (no_partial_match _ _ Hp). reflexivity.
  - intros file He. split; [|split].
    + unfold init. simpl. apply build_index_of_empty. exact He.
    + unfold get_stats, init. simpl. rewrite He. reflexivity.
    + intro name. apply get_traffic_level_unknown.
      unfold get_traffic_count, init. simpl. rewrite He. reflexivity.
  - intro cols. unfold _load_data. simpl.
    destruct (negb _); [reflexivity|].
    unfold empty. simpl. destruct cols; reflexivity.
  - reflexivity.
Qed.

Lemma C6_unknown_witness :
  get_traffic_level example_data (lit "Oak Rd") = (unknown, 1%Q, None)
  /\ get_stats (init (Some no_rows_csv)) = no_data
  /\ get_traffic_level (init (Some no_rows_csv)) (lit "Main St") = (unknown, 1%Q, None).
Proof.
  destruct C6_unknown_when_no_match as (Hmiss & Hempty & _ & _).
  split.
  - apply Hmiss; [reflexivity|].
    intros k e [E | [E | []]]; inversion E; split; reflexivity.
  - destruct (Hempty (Some no_rows_csv) eq_refl) as (_ & Hs & Hl).
    split; [exact Hs | apply Hl].
Defined.

(** Every key contains the empty text, so for the empty name the
    substring fallback collects the average of every entry. *)
Lemma empty_name_matches_every_key (self : TrafficData) :
  empty (traffic_df self) = false ->
  lookup [] (street_index self) = None ->
  street_index self <> [] ->
  get_traffic_count self []
  = Some (mean (map (fun kv => avg_count (snd kv)) (street_index self))).
Proof.
  intros Hne Hl Hidx. unfold get_traffic_count.
  rewrite Hne. cbn [_normalize_street_name]. rewrite Hl.
  assert (E : forall idx : list (str * Entry),
             flat_map (fun kv : str * Entry =>
                         let (indexed_street, data) := kv in
                         if contains indexed_street [] || contains [] indexed_street
                         then [avg_count data] else []) idx
             = map (fun kv => avg_count (snd kv)) idx).
  { induction idx as [|[k e] idx IH]; [reflexivity|].
    cbn [flat_map map snd]. rewrite IH.
    destruct k; reflexivity. }
  rewrite E. destruct (street_index self); [congruence | reflexivity].
Qed.

(** C3: the empty street name.  With a non-empty index the empty name is
    a substring of every key, so the lookup averages every entry and the
    classifier reports a tier, not the unknown sentinel; an empty
    instruction yields no candidate and an empty route the identity
    result. *)
Theorem C3_empty_street_name_is_classified :
  get_traffic_level example_data [] = (known moderate, 1%Q, Some (25000 # 2)%Q)
  /\ _extract_street_from_instruction [] = []
  /\ forall self, calculate_route_adjustment self [] = identity_adjustment.
Proof. repeat split. Qed.

(** ** The route adjustment *)

(** *** The loops with the floats of the machine *)

Section MachineLoops.
Variable self : TrafficData.
Local Open Scope Q_scope.






End MachineLoops.



(** The doubles of the tier table and of the results above, as Python
    shows them with [float.as_integer_ratio]. *)
Example binary64_values :
  (Binary64.literal (90 # 100) = 8106479329266893 # 9007199254740992
  /\ Binary64.literal (95 # 100) = 4278419646001971 # 4503599627370496
  /\ Binary64.literal 1 = 1
  /\ Binary64.literal (115 # 100) = 2589569785738035 # 2251799813685248
  /\ Binary64.literal (130 # 100) = 5854679515581645 # 4503599627370496
  /\ Binary64.literal (1037 # 1000) = 1167558203395801 # 1125899906842624
  /\ Binary64.literal (1038 # 1000) = 4674736413210575 # 4503599627370496
  /\ Binary64.literal (105 # 100) = 4728779608739021 # 4503599627370496)%Q.
Proof. vm_compute. repeat split. Qed.

(** C9: the confidence is high exactly when at least 5 classifications
    contributed, medium exactly when at least 2 and fewer than 5 did, low
    otherwise; it is a function of that number alone. *)
Theorem C9_confidence_by_count :
  forall (self : TrafficData) (route_steps : list Step),
    let r := calculate_route_adjustment self route_steps in
    let n := length (tier_multipliers self route_steps) in
    streets_matched r = n
    /\ (confidence r = conf_high <-> 5 <= n)
    /\ (confidence r = conf_medium <-> 2 <= n < 5)
    /\ (confidence r = conf_low <-> n < 2)
    /\ forall (self' : TrafficData) (route_steps' : list Step),
        length (tier_multipliers self' route_steps') = n ->
        confidence (calculate_route_adjustment self' route_steps') = confidence r.
Proof.
  intros self route_steps r n.
  assert (Hr : forall s rs,
             streets_matched (calculate_route_adjustment s rs)
             = length (tier_multipliers s rs)
             /\ confidence (calculate_route_adjustment s rs)
                = confidence_of (length (tier_multipliers s rs))).
  { intros s rs. rewrite calculate_route_adjustment_eq.
    destruct (tier_multipliers s rs); split; reflexivity. }
  destruct (Hr self route_steps) as [Hm Hc]. fold r n in Hm, Hc.
  split; [exact Hm|].
  assert (Hcases : confidence_of n = conf_high /\ 5 <= n
                   \/ confidence_of n = conf_medium /\ 2 <= n < 5
                   \/ confidence_of n = conf_low /\ n < 2).
  { unfold confidence_of.
    destruct (5 <=? n) eqn:E5; [apply Nat.leb_le in E5; auto|].
    apply Nat.leb_gt in E5.
    destruct (2 <=? n) eqn:E2; [apply Nat.leb_le in E2; auto|].
    apply Nat.leb_gt in E2. auto. }
  rewrite Hc.
  assert (Hiff : (confidence_of n = conf_high <-> 5 <= n)
                 /\ (confidence_of n = conf_medium <-> 2 <= n < 5)
                 /\ (confidence_of n = conf_low <-> n < 2)).
  { destruct Hcases as [[E ?] | [[E ?] | [E ?]]]; rewrite E;
      (split; [|split]); split; intro; first [ lia | congruence ]. }
  destruct Hiff as (H5 & H2 & H1).
  split; [exact H5|]. split; [exact H2|]. split; [exact H1|].
  intros self' route_steps' Hn.
  destruct (Hr self' route_steps') as [_ Hc']. rewrite Hc', Hn. reflexivity.
Qed.

(** C10: in every result the matched count is the length of the details,
    every detail carries a tier (never unknown) and the multiplier of that
    tier, and the route multiplier lies between 0.90 and 1.30. *)
Theorem C10_result_is_consistent :
  forall (self : TrafficData) (route_steps : list Step),
    let r := calculate_route_adjustment self route_steps in
    streets_matched r = length (street_details r)
    /\ Forall (fun d => d_level d <> unknown
                        /\ exists t, d_level d = known t
                                     /\ d_multiplier d = CONGESTION_MULTIPLIERS t)
              (street_details r)
    /\ (90 # 100 <= multiplier r <= 130 # 100)%Q.
Proof.
  intros self route_steps r. subst r.
  rewrite calculate_route_adjustment_eq.
  pose proof (details_length self (route_candidates route_steps)) as Hlen.
  pose proof (details_known self (route_candidates route_steps)) as Hk.
  pose proof (multipliers_in_table self (route_candidates route_steps)) as Ht.
  fold (route_details self route_steps) in Hlen, Hk.
  fold (tier_multipliers self route_steps) in Hlen, Ht.
  destruct (tier_multipliers self route_steps) as [|m ms] eqn:E.
  - simpl. repeat split; try constructor; discriminate.
  - cbn [streets_matched street_details multiplier].
    split; [symmetry; exact Hlen|]. split.
    + eapply Forall_impl; [|exact Hk].
      intros d (t & Hl & Hm). split; [congruence|]. exists t. auto.
    + setoid_replace (90 # 100)%Q with (inject_Z 900 / 1000)%Q
        by (vm_compute; reflexivity).
      setoid_replace (130 # 100)%Q with (inject_Z 1300 / 1000)%Q
        by (vm_compute; reflexivity).
      apply (@round3_bounds 900 1300).
      apply mean_bounds; [discriminate|].
      eapply Forall_impl; [|exact Ht].
      intros x [t ->]. destruct t; split; discriminate.
Qed.

(** ** The street search *)

Section Search.

Lemma key_lt_asym (a b : bool * Z) : key_lt a b = true -> key_lt b a = false.
Proof.
  destruct a as [[|] x], b as [[|] y]; unfold key_lt; simpl;
    try discriminate; try reflexivity;
    intro H; apply Z.ltb_lt in H; apply Z.ltb_ge; lia.
Qed.

Lemma key_le_trans (a b c : bool * Z) :
  key_lt b a = false -> key_lt c b = false -> key_lt c a = false.
Proof.
  destruct a as [[|] x], b as [[|] y], c as [[|] z]; unfold key_lt; simpl;
    try discriminate; try reflexivity;
    intros H1 H2; apply Z.ltb_ge in H1; apply Z.ltb_ge in H2;
    apply Z.ltb_ge; lia.
Qed.

(** What [in_order] says for the sort key of the search. *)
Lemma key_order (query : str) (a b : Match) :
  key_lt (sort_key query b) (sort_key query a) = false ->
  (startswith (m_street_name b) query = true ->
   startswith (m_street_name a) query = true)
  /\ (startswith (m_street_name a) query = startswith (m_street_name b) query ->
      (m_avg_count b <= m_avg_count a)%Z).
Proof.
  unfold key_lt, sort_key. simpl.
  destruct (startswith (m_street_name a) query),
           (startswith (m_street_name b) query); simpl;
    intro H; try discriminate; split; try congruence; try reflexivity;
    intros _; apply Z.ltb_ge in H; lia.
Qed.

Lemma matches_found (self : TrafficData) (query : str)
      (idx : list (str * Entry)) :
  (forall kv, In kv idx -> In kv (street_index self)) ->
  Forall (found_in self query)
         (flat_map (fun kv : str * Entry =>
                      let (street, data) := kv in
                      if contains street query
                      then
                        let '(level, mult, _) := get_traffic_level self street in
                        [{| m_street_name := street;
                            m_avg_count := round0 (avg_count data);
                            m_traffic_level := level;
                            m_sample_size := sample_size data |}]
                      else [])
                   idx).
Proof.
  induction idx as [|[k e] idx IH]; intro Hsub; simpl; [constructor|].
  apply Forall_app. split.
  - destruct (contains k query) eqn:E; [|constructor].
    destruct (get_traffic_level self k) as [[l m] c].
    constructor; [|constructor].
    split; [exact E|]. exists e. simpl. repeat split.
    apply Hsub. left. reflexivity.
  - apply IH. intros kv Hin. apply Hsub. right. exact Hin.
Qed.

End Search.

(** C8 (amended): for a non-empty query and a limit that is not negative,
    [search_streets] returns only index entries whose key contains the
    upper-cased query, keys that start with it before all that do not and
    descending by (rounded) average among keys alike in this, and at most
    [limit] of them. *)
Theorem C8_search_ranked_and_capped :
  forall (self : TrafficData) (query : str) (limit : Z),
    query <> [] ->
    (0 <= limit)%Z ->
    let found := search_streets self query limit in
    Forall (found_in self (upper query)) found
    /\ StronglySorted (ranked (upper query)) found
    /\ (Z.of_nat (length found) <= limit)%Z.
Proof.
  intros self query limit Hq Hl found. subst found.
  unfold search_streets.
  destruct (empty (traffic_df self));
    [repeat split; try constructor; simpl; lia|].
  destruct query as [|c query]; [congruence|].
  set (q := upper (c :: query)).
  set (ms := flat_map _ (street_index self)).
  set (ltk := fun a b : Match => key_lt (sort_key q a) (sort_key q b)).
  assert (Hfound : Forall (found_in self q) ms)
    by (apply matches_found; auto).
  assert (Hsorted : StronglySorted (ranked q) (stable_sort ltk ms)).
  { assert (Hs : StronglySorted (in_order ltk) (stable_sort ltk ms)).
    { apply stable_sort_sorted; unfold ltk; intros.
      - apply key_lt_asym. assumption.
      - eapply key_le_trans; eassumption. }
    clear -Hs. induction Hs as [|x l Hs IH Hx]; constructor; [exact IH|].
    eapply Forall_impl; [|exact Hx].
    intros y Hy. apply key_order. exact Hy. }
  destruct (slice_to_firstn _ (stable_sort ltk ms) limit) as [n Hn].
  split; [|split].
  - rewrite Hn. apply Forall_forall. intros m Hm.
    apply firstn_in in Hm. apply stable_sort_in in Hm.
    rewrite Forall_forall in Hfound. apply Hfound. exact Hm.
  - rewrite Hn. apply firstn_sorted. exact Hsorted.
  - apply slice_to_length. exact Hl.
Qed.

Lemma C8_search_witness :
  Forall (found_in example_data (upper (lit "a")))
         (search_streets example_data (lit "a") 1)
  /\ StronglySorted (ranked (upper (lit "a")))
                    (search_streets example_data (lit "a") 1)
  /\ (Z.of_nat (length (search_streets example_data (lit "a") 1)) <= 1)%Z.
Proof.
  apply (@C8_search_ranked_and_capped example_data (lit "a") 1%Z).
  - discriminate.
  - discriminate.
Defined.

(** C8 as stated fails for a negative limit: the slice then drops entries
    from the end, and with the two streets of the example and limit -1 one
    entry comes back, more than the limit. *)
Lemma C8_negative_limit_counterexample :
  lit "a" <> []
  /\ Z.of_nat (length (search_streets example_data (lit "a") (-1))) = 1%Z
  /\ ~ (Z.of_nat (length (search_streets example_data (lit "a") (-1))) <= -1)%Z.
Proof.
  split; [discriminate|]. split; [reflexivity|].
  vm_compute. intro H. apply H. reflexivity.
Qed.

(** ** The street index *)

(** *** Arrangements by date *)

Section Arrangements.
Local Open Scope Q_scope.

(** The entry the builder stores under a key, for any arrangement. *)
Lemma build_index_by_lookup (sort_values : list TrafficRecord -> list TrafficRecord)
      (df : DataFrame) (name : str) (e : Entry) :
  lookup name (_build_street_index_by sort_values df) = Some e ->
  In name (map street_name (records df))
  /\ avg_count e
     = (if has_column (lit "date_count") (columns df)
        then mean (map total_count (firstn 3 (sort_values (rows_of df name))))
        else mean (map total_count (rows_of df name)))
  /\ max_count e = maximum (map total_count (rows_of df name))
  /\ min_count e = minimum (map total_count (rows_of df name))
  /\ sample_size e = length (rows_of df name).
Proof.
  unfold _build_street_index_by.
  destruct (empty df); [discriminate|].
  intro H. apply lookup_map in H. destruct H as [Hin ->].
  apply (proj1 (distinct_in _ _)) in Hin.
  cbn [avg_count max_count min_count sample_size].
  repeat split; auto.
Qed.

(** [_build_street_index] is the builder with the arrangement that keeps
    the order of the dataset among rows that tie. *)
Lemma build_index_stable (df : DataFrame) :
  _build_street_index df = _build_street_index_by sort_by_date_desc df.
Proof. reflexivity. Qed.

Lemma date_order_stable : date_order sort_by_date_desc.
Proof.
  intro l. split.
  - apply stable_sort_perm.
  - apply sort_by_date_desc_sorted.
Qed.

Lemma date_order_reversing : date_order sort_by_date_desc_reversing.
Proof.
  intro l. unfold sort_by_date_desc_reversing. split.
  - eapply Permutation_trans; [apply stable_sort_perm|].
    apply Permutation_sym, Permutation_rev.
  - apply sort_by_date_desc_sorted.
Qed.

(** Two rows that may stand in either order tie in date. *)
Lemma tie_same_date (a b : TrafficRecord) :
  in_order more_recent a b -> in_order more_recent b a ->
  date_count a = date_count b.
Proof.
  unfold in_order, more_recent.
  destruct (date_count a) as [x|], (date_count b) as [y|];
    try discriminate; try reflexivity.
  intros H1 H2. apply Z.ltb_ge in H1. apply Z.ltb_ge in H2.
  f_equal. lia.
Qed.

Lemma same_key_same_row (A B : Type) (f : A -> B) (l : list A) :
  NoDup (map f l) ->
  forall a b, In a l -> In b l -> f a = f b -> a = b.
Proof.
  induction l as [|x l IH]; intros Hnd a b Ha Hb E; [destruct Ha|].
  cbn [map] in Hnd. inversion Hnd as [|y ys Hx Hnd']. subst y ys.
  destruct Ha as [<- | Ha], Hb as [<- | Hb].
  - reflexivity.
  - exfalso. apply Hx. rewrite E. apply in_map. exact Hb.
  - exfalso. apply Hx. rewrite <- E. apply in_map. exact Ha.
  - apply IH; assumption.
Qed.

(** When no two rows tie there is one arrangement in date order. *)
Lemma date_order_unique (l1 : list TrafficRecord) :
  forall l2,
    NoDup (map date_count l1) ->
    Permutation l1 l2 ->
    StronglySorted (in_order more_recent) l1 ->
    StronglySorted (in_order more_recent) l2 ->
    l1 = l2.
Proof.
  induction l1 as [|a l1 IH]; intros l2 Hnd Hp S1 S2.
  - apply Permutation_nil in Hp. subst l2. reflexivity.
  - destruct l2 as [|b l2].
    + apply Permutation_sym, Permutation_nil in Hp. discriminate.
    + assert (Hab : a = b).
      { pose proof (Permutation_in a Hp (or_introl eq_refl)) as Ha.
        pose proof (Permutation_in b (Permutation_sym Hp) (or_introl eq_refl)) as Hb.
        destruct Ha as [Ha | Ha]; [symmetry; exact Ha|].
        destruct Hb as [Hb | Hb]; [exact Hb|].
        apply StronglySorted_inv in S1. destruct S1 as [_ F1].
        apply StronglySorted_inv in S2. destruct S2 as [_ F2].
        rewrite Forall_forall in F1, F2.
        apply (same_key_same_row _ _ date_count (a :: l1) Hnd).
        - left. reflexivity.
        - right. exact Hb.
        - apply tie_same_date; [apply F1; exact Hb | apply F2; exact Ha]. }
      subst b. f_equal.
      apply IH.
      * cbn [map] in Hnd. inversion Hnd. assumption.
      * eapply Permutation_cons_inv. exact Hp.
      * apply StronglySorted_inv in S1. tauto.
      * apply StronglySorted_inv in S2. tauto.
Qed.

End Arrangements.

(** C5 (amended): for the entry of a street, the average is the mean of
    the counts of the three rows that come first in the arrangement
    [sort_values] gives the rows of the street, whatever arrangement in
    date order that is (latest first, undated last; the order of rows
    that tie is the sort's choice), whenever the dataset has a date
    column (whether or not a date of the street was read), and the mean
    of all the rows of the street when it has none; maximum, minimum and
    sample size are taken over all the rows of the street; a street with
    one row has average, minimum and maximum equal to its count; when no
    two rows of the street tie, the arrangement is the one that
    [sort_by_date_desc] gives. *)
Theorem C5_entry_statistics :
  forall (sort_values : list TrafficRecord -> list TrafficRecord),
    date_order sort_values ->
    forall (df : DataFrame) (name : str) (e : Entry),
      lookup name (_build_street_index_by sort_values df) = Some e ->
      let group := rows_of df name in
      let counts := map total_count group in
      let by_date := sort_values group in
      group <> []
      /\ Permutation by_date group
      /\ StronglySorted (fun a b => more_recent b a = false) by_date
      /\ (has_column (lit "date_count") (columns df) = true ->
          avg_count e = mean (map total_count (firstn 3 by_date)))
      /\ (has_column (lit "date_count") (columns df) = false ->
          avg_count e = mean counts)
      /\ (max_count e = maximum counts
          /\ In (max_count e) counts
          /\ Forall (fun c => c <= max_count e)%Q counts)
      /\ (min_count e = minimum counts
          /\ In (min_count e) counts
          /\ Forall (fun c => min_count e <= c)%Q counts)
      /\ sample_size e = length group
      /\ (forall r, group = [r] ->
                    avg_count e == total_count r
                    /\ max_count e = total_count r
                    /\ min_count e = total_count r)
      /\ (NoDup (map date_count group) -> by_date = sort_by_date_desc group).
Proof.
  intros sort_values Hsort df name e H group counts by_date.
  apply build_index_by_lookup in H.
  destruct H as (Hin & Havg & Hmax & Hmin & Hn).
  fold group in Havg, Hmax, Hmin, Hn.
  fold by_date in Havg. fold counts in Havg, Hmax, Hmin.
  destruct (Hsort group) as [Hperm Hsorted]. fold by_date in Hperm, Hsorted.
  assert (Hne : group <> []) by (apply rows_of_nonempty; exact Hin).
  assert (Hc : counts <> []).
  { subst counts. destruct group; [congruence | discriminate]. }
  split; [exact Hne|].
  split; [exact Hperm|].
  split; [exact Hsorted|].
  split; [intro Hd; rewrite Hd in Havg; exact Havg|].
  split; [intro Hd; rewrite Hd in Havg; exact Havg|].
  split; [rewrite Hmax; split; [reflexivity | apply maximum_spec; exact Hc]|].
  split; [rewrite Hmin; split; [reflexivity | apply minimum_spec; exact Hc]|].
  split; [exact Hn|].
  split.
  - intros r Hr. subst counts. rewrite Hr in *.
    split; [|split; assumption].
    apply Permutation_sym, Permutation_length_1_inv in Hperm.
    rewrite Havg, Hperm.
    destruct (has_column (lit "date_count") (columns df));
      unfold mean, sum; simpl; field.
  - intro Hnd.
    destruct (date_order_stable group) as [Hperm' Hsorted'].
    symmetry. apply date_order_unique.
    + apply (Permutation_NoDup (l := map date_count group)); [|exact Hnd].
      apply Permutation_map, Permutation_sym. exact Hperm'.
    + eapply Permutation_trans; [exact Hperm'|].
      apply Permutation_sym. exact Hperm.
    + exact Hsorted'.
    + exact Hsorted.
Qed.

(** Instances: with the dates 1, 4, 2, 3 the three latest counts are 40,
    30 and 20; with four counts 1, 2, 3, 4 of one day the arrangement that
    keeps the order of the dataset averages 1, 2, 3 and the one that
    reverses it averages 4, 3, 2. *)
Lemma C5_entry_witness :
  (exists e,
      lookup (lit "A ST")
             (_build_street_index_by sort_by_date_desc (_load_data (Some dated_csv)))
      = Some e
      /\ avg_count e == 30
      /\ max_count e == 40
      /\ min_count e == 10
      /\ sample_size e = 4)
  /\ (exists e,
         lookup (lit "A ST")
                (_build_street_index_by sort_by_date_desc (_load_data (Some tied_csv)))
         = Some e
         /\ avg_count e == 2)
  /\ (exists e,
         lookup (lit "A ST")
                (_build_street_index_by sort_by_date_desc_reversing
                                        (_load_data (Some tied_csv)))
         = Some e
         /\ avg_count e == 3).
Proof.
  split; [|split].
  - eexists. split; [reflexivity|].
    pose proof (@C5_entry_statistics sort_by_date_desc date_order_stable
                  (_load_data (Some dated_csv)) (lit "A ST") _ eq_refl) as H.
    cbv zeta in H.
    destruct H as (_ & _ & _ & Havg & _ & (Hmax & _) & (Hmin & _) & Hn & _).
    split; [rewrite (Havg eq_refl); reflexivity|].
    split; [rewrite Hmax; reflexivity|].
    split; [rewrite Hmin; reflexivity|].
    rewrite Hn. reflexivity.
  - eexists. split; [reflexivity|].
    pose proof (@C5_entry_statistics sort_by_date_desc date_order_stable
                  (_load_data (Some tied_csv)) (lit "A ST") _ eq_refl) as H.
    cbv zeta in H.
    destruct H as (_ & _ & _ & Havg & _).
    rewrite (Havg eq_refl). reflexivity.
  - eexists. split; [reflexivity|].
    pose proof (@C5_entry_statistics sort_by_date_desc_reversing date_order_reversing
                  (_load_data (Some tied_csv)) (lit "A ST") _ eq_refl) as H.
    cbv zeta in H.
    destruct H as (_ & _ & _ & Havg & _).
    rewrite (Havg eq_refl). reflexivity.
Defined.

(** C5 as stated fails when the dataset has a date column and no date of
    the street was read: of four such rows counted 0, 0, 0 and 4 the entry
    averages the first three (0), not all four (1). *)
Lemma C5_undated_group_counterexample :
  exists e,
    lookup (lit "A ST") (street_index (init (Some undated_csv))) = Some e
    /\ has_parsed_date (rows_of (traffic_df (init (Some undated_csv))) (lit "A ST"))
       = false
    /\ stated_average (rows_of (traffic_df (init (Some undated_csv))) (lit "A ST")) == 1
    /\ avg_count e == 0
    /\ ~ avg_count e
         == stated_average (rows_of (traffic_df (init (Some undated_csv))) (lit "A ST")).
Proof.
  eexists. split; [reflexivity|].
  split; [reflexivity|]. split; [reflexivity|]. split; [reflexivity|].
  vm_compute. discriminate.
Qed.

(** C2 (amended): the index is keyed by the street names as the loader
    cleans them (upper-cased and trimmed; no suffix abbreviation, no
    whitespace collapse): the keys are distinct, they are exactly the
    cleaned names of the rows, and the rows with one cleaned name share
    the entry under it. *)
Theorem C2_index_keyed_by_cleaned_name :
  forall (csv : Csv),
    has_column (lit "street_name") (csv_columns csv) = true ->
    has_column (lit "total_count") (csv_columns csv) = true ->
    let idx := street_index (init (Some csv)) in
    NoDup (map fst idx)
    /\ (forall k, In k (map fst idx)
                  <-> exists r, In r (csv_rows csv) /\ cleaned_name r = k)
    /\ (forall r, In r (csv_rows csv) ->
          exists e,
            lookup (cleaned_name r) idx = Some e
            /\ sample_size e
               = length (filter (fun r' => Str.eqb (cleaned_name r') (cleaned_name r))
                                (csv_rows csv))).
Proof.
  intros csv H1 H2 idx. subst idx. unfold init. cbn [street_index].
  set (df := _load_data (Some csv)).
  assert (Hnames : map street_name (records df) = map cleaned_name (csv_rows csv)).
  { unfold df, _load_data, required_cols. cbn [forallb]. rewrite H1, H2.
    cbn [andb negb records]. rewrite map_map. reflexivity. }
  assert (Hcols : columns df = csv_columns csv).
  { unfold df, _load_data, required_cols. cbn [forallb]. rewrite H1, H2.
    reflexivity. }
  assert (Hrows : forall name,
             length (rows_of df name)
             = length (filter (fun r' => Str.eqb (cleaned_name r') name)
                              (csv_rows csv))).
  { intro name. unfold rows_of, df, _load_data, required_cols.
    cbn [forallb]. rewrite H1, H2. cbn [andb negb records].
    clear. induction (csv_rows csv) as [|r rows IH]; [reflexivity|].
    cbn [map filter street_name]. fold (cleaned_name r).
    destruct (Str.eqb (cleaned_name r) name); cbn [length]; rewrite IH;
      reflexivity. }
  destruct (empty df) eqn:He.
  - (* no row at all *)
    assert (Hnil : csv_rows csv = []).
    { unfold empty in He. rewrite Hcols in He.
      destruct (csv_columns csv); [discriminate|].
      destruct (records df) eqn:Er; [|discriminate].
      destruct (csv_rows csv); [reflexivity|discriminate]. }
    rewrite (build_index_of_empty _ He), Hnil. simpl.
    split; [constructor|]. split; [|tauto].
    intro k. split; [tauto | intros (r & [] & _)].
  - split; [|split].
    + rewrite (build_index_keys _ He). apply distinct_nodup.
    + intro k. rewrite (build_index_keys _ He), distinct_in, Hnames, in_map_iff.
      split; intros (r & A & B); exists r; auto.
    + intros r Hr.
      destruct (@build_index_hit df (cleaned_name r) He) as (e & Hl & Hs).
      { rewrite Hnames. apply in_map. exact Hr. }
      exists e. split; [exact Hl|]. rewrite Hs. apply Hrows.
Qed.

Lemma C2_index_witness :
  NoDup (map fst (street_index (init (Some dated_csv))))
  /\ (forall k, In k (map fst (street_index (init (Some dated_csv))))
                <-> exists r, In r (csv_rows dated_csv) /\ cleaned_name r = k)
  /\ (forall r, In r (csv_rows dated_csv) ->
        exists e,
          lookup (cleaned_name r) (street_index (init (Some dated_csv))) = Some e
          /\ sample_size e
             = length (filter (fun r' => Str.eqb (cleaned_name r') (cleaned_name r))
                              (csv_rows dated_csv))).
Proof.
  apply (@C2_index_keyed_by_cleaned_name dated_csv); reflexivity.
Defined.

(** C2 as stated fails: MAIN STREET and MAIN ST normalise to the same text
    and yet get an entry each, so the entry under the normalised text
    holds one row, not two. *)
Lemma C2_two_spellings_counterexample :
  _normalize_street_name (lit "MAIN STREET") = lit "MAIN ST"
  /\ _normalize_street_name (lit "MAIN ST") = lit "MAIN ST"
  /\ map fst (street_index (init (Some two_spellings_csv)))
     = [lit "MAIN STREET"; lit "MAIN ST"]
  /\ (exists e,
         lookup (lit "MAIN ST") (street_index (init (Some two_spellings_csv))) = Some e
         /\ sample_size e = 1)
  /\ ~ grouped_by_normalized_name two_spellings_csv.
Proof.
  split; [reflexivity|]. split; [reflexivity|]. split; [reflexivity|].
  split; [eexists; split; reflexivity|].
  intro H.
  destruct (H (raw_row "MAIN ST" (Some 200%Q) None)) as (e & Hl & Hs).
  { right. left. reflexivity. }
  vm_compute in Hl. inversion Hl. subst e.
  vm_compute in Hs. discriminate.
Qed.

(** ** The name normaliser *)

(** C7: normalising a street name twice gives what normalising it once
    gives. *)
Theorem C7_normalize_idempotent :
  forall x : str,
    _normalize_street_name (_normalize_street_name x) = _normalize_street_name x.
Proof.
  intro x. destruct x as [|c x]; [reflexivity|].
  rewrite (normalize_steps (c :: x)) by discriminate.
  apply normalize_fixed.
  - apply abbreviations_keep; [exact abbreviations_upper|].
    apply strip_keeps, upper_not_lower.
  - intros fa Hin.
    rewrite (words_abbreviations _ _ abbreviations_are_words).
    apply Forall_forall. intros w Hw.
    apply in_map_iff in Hw. destruct Hw as (w0 & <- & _).
    apply fold_abbrev_not_full; [|exact Hin].
    apply short_forms_stay_spec. exact abbreviations_stay.
Qed.

(** The normaliser on the names of the specification's examples. *)
Example normalize_examples :
  _normalize_street_name (lit " Main   Street ") = lit "MAIN ST"
  /\ _normalize_street_name (lit "MAIN ST") = lit "MAIN ST"
  /\ _normalize_street_name (lit "STREETSVILLE RD") = lit "STREETSVILLE RD"
  /\ _normalize_street_name (lit "main-street") = lit "MAIN-ST".
Proof. repeat split. Qed.

(** * Further properties of the engine *)

(** ** Case and margins *)

Section CaseAndMargins.

Lemma upper_char_space (c : ascii) : is_space (upper_char c) = is_space c.
Proof. destruct c as [[] [] [] [] [] [] [] []]; reflexivity. Qed.

Lemma upper_idempotent (s : str) : upper (upper s) = upper s.
Proof. apply upper_fixed, upper_not_lower. Qed.

Lemma upper_app (a b : str) : upper (a ++ b) = upper a ++ upper b.
Proof. apply map_app. Qed.

Lemma upper_rev (s : str) : upper (rev s) = rev (upper s).
Proof. apply map_rev. Qed.

Lemma upper_lstrip (s : str) : upper (lstrip s) = lstrip (upper s).
Proof.
  induction s as [|c s IH]; [reflexivity|]. simpl.
  rewrite upper_char_space. destruct (is_space c); [exact IH | reflexivity].
Qed.

Lemma upper_strip (s : str) : upper (strip s) = strip (upper s).
Proof.
  unfold strip, rstrip.
  rewrite upper_rev, upper_lstrip, upper_rev, upper_lstrip. reflexivity.
Qed.

Lemma lstrip_starts_clean (s : str) : starts_clean (lstrip s).
Proof.
  induction s as [|c s IH]; simpl; [exact I|].
  destruct (is_space c) eqn:E; [exact IH | exact E].
Qed.

Lemma lstrip_snoc (a : str) (c : ascii) :
  is_space c = false -> lstrip (a ++ [c]) = lstrip a ++ [c].
Proof.
  intro Hc. induction a as [|x a IH]; simpl.
  - rewrite Hc. reflexivity.
  - destruct (is_space x); [exact IH | reflexivity].
Qed.

Lemma rstrip_starts_clean (s : str) : starts_clean s -> starts_clean (rstrip s).
Proof.
  destruct s as [|c s]; [intros _; exact I|]. simpl. intro Hc.
  unfold rstrip. simpl rev. rewrite lstrip_snoc by exact Hc.
  rewrite rev_app_distr. exact Hc.
Qed.

Lemma strip_idempotent (s : str) : strip (strip s) = strip s.
Proof.
  apply strip_clean.
  - apply rstrip_starts_clean, lstrip_starts_clean.
  - unfold strip, rstrip. rewrite rev_involutive. apply lstrip_starts_clean.
Qed.

(** The normaliser without its guard: on the empty text the four steps
    give the empty text as well. *)
Lemma normalize_unfold (s : str) :
  _normalize_street_name s
  = join (lit " ") (split (fold_left abbreviate abbreviations (strip (upper s)))).
Proof. destruct s; reflexivity. Qed.

Lemma normalize_upper (s : str) :
  _normalize_street_name (upper s) = _normalize_street_name s.
Proof. rewrite !normalize_unfold, upper_idempotent. reflexivity. Qed.

Lemma normalize_strip (s : str) :
  _normalize_street_name (strip s) = _normalize_street_name s.
Proof.
  rewrite !normalize_unfold, upper_strip, strip_idempotent. reflexivity.
Qed.

(** Normalising twice is normalising once (shared with the parser's
    properties). *)
Lemma normalize_twice (x : str) :
  _normalize_street_name (_normalize_street_name x) = _normalize_street_name x.
Proof.
  destruct x as [|c x]; [reflexivity|].
  rewrite (normalize_steps (c :: x)) by discriminate.
  apply normalize_fixed.
  - apply abbreviations_keep; [exact abbreviations_upper|].
    apply strip_keeps, upper_not_lower.
  - intros fa Hin.
    rewrite (words_abbreviations _ _ abbreviations_are_words).
    apply Forall_forall. intros w Hw.
    apply in_map_iff in Hw. destruct Hw as (w0 & <- & _).
    apply fold_abbrev_not_full; [|exact Hin].
    apply short_forms_stay_spec. exact abbreviations_stay.
Qed.

Lemma normalize_upper_case (x : str) :
  Forall (fun c => is_lower c = false) (_normalize_street_name x).
Proof.
  rewrite normalize_unfold. apply join_keeps; [repeat constructor|].
  apply runs_from_keep; [constructor|].
  apply abbreviations_keep; [exact abbreviations_upper|].
  apply strip_keeps, upper_not_lower.
Qed.

Lemma get_traffic_count_normalized (self : TrafficData) (a b : str) :
  _normalize_street_name a = _normalize_street_name b ->
  get_traffic_count self a = get_traffic_count self b.
Proof. intro E. unfold get_traffic_count. rewrite E. reflexivity. Qed.

Lemma get_traffic_level_normalized (self : TrafficData) (a b : str) :
  _normalize_street_name a = _normalize_street_name b ->
  get_traffic_level self a = get_traffic_level self b.
Proof.
  intro E. unfold get_traffic_level.
  rewrite (get_traffic_count_normalized self a b E). reflexivity.
Qed.

End CaseAndMargins.

(** X1: the classifier does not look at the letter case of a street name
    nor at the spaces around it, and a name it has normalised classifies
    as the name itself. *)
Theorem X1_classify_ignores_case_and_margins :
  forall (self : TrafficData) (name : str),
    get_traffic_level self (upper name) = get_traffic_level self name
    /\ get_traffic_level self (strip name) = get_traffic_level self name
    /\ get_traffic_level self (_normalize_street_name name)
       = get_traffic_level self name.
Proof.
  intros self name. split; [|split]; apply get_traffic_level_normalized.
  - apply normalize_upper.
  - apply normalize_strip.
  - apply normalize_twice.
Qed.

(** ** The loader and the index *)

Section LoaderFacts.

Lemma required_present (csv : Csv) :
  forallb (fun col => has_column col (csv_columns csv)) required_cols = true ->
  _load_data (Some csv)
  = {| columns := csv_columns csv;
       records :=
         map (fun r =>
                {| street_name := strip (upper (raw_street_name r));
                   total_count :=
                     match raw_total_count r with Some n => n | None => 0%Q end;
                   date_count :=
                     if has_column (lit "date_count") (csv_columns csv)
                     then raw_date_count r else None;
                   limits :=
                     if has_column (lit "limits") (csv_columns csv)
                     then strip (upper (raw_limits r)) else [] |})
             (csv_rows csv) |}.
Proof. intro H. unfold _load_data. rewrite H. reflexivity. Qed.

Lemma load_data_names (csv : Csv) :
  forallb (fun col => has_column col (csv_columns csv)) required_cols = true ->
  map street_name (records (_load_data (Some csv)))
  = map cleaned_name (csv_rows csv).
Proof.
  intro H. rewrite (required_present csv H). cbn [records].
  rewrite map_map. reflexivity.
Qed.

Lemma load_data_length (csv : Csv) :
  forallb (fun col => has_column col (csv_columns csv)) required_cols = true ->
  length (records (_load_data (Some csv))) = length (csv_rows csv).
Proof.
  intro H. rewrite (required_present csv H). cbn [records]. apply length_map.
Qed.

(** A loaded frame is empty exactly when it has no record. *)
Lemma load_data_empty (file : option Csv) :
  empty (_load_data file) = true <-> records (_load_data file) = [].
Proof.
  destruct file as [csv|]; [|split; reflexivity].
  destruct (forallb (fun col => has_column col (csv_columns csv)) required_cols)
    eqn:H.
  - rewrite (required_present csv H). unfold empty. cbn [columns records].
    unfold required_cols in H. cbn [forallb] in H.
    destruct (csv_columns csv) as [|c cols]; [discriminate|].
    destruct (map _ (csv_rows csv)); split; congruence.
  - unfold _load_data. rewrite H. split; reflexivity.
Qed.

Lemma cleaned_name_fixed (r : RawRow) :
  upper (cleaned_name r) = cleaned_name r
  /\ strip (cleaned_name r) = cleaned_name r.
Proof.
  unfold cleaned_name. split.
  - apply upper_fixed, strip_keeps, upper_not_lower.
  - apply strip_idempotent.
Qed.

Lemma list_sum_add (A : Type) (a b : A -> nat) (l : list A) :
  list_sum (map (fun k => a k + b k) l)
  = list_sum (map a l) + list_sum (map b l).
Proof. induction l as [|k l IH]; simpl; [reflexivity | rewrite IH; lia]. Qed.

Lemma indicator_absent (x : str) (ks : list str) :
  ~ In x ks -> list_sum (map (fun k => if Str.eqb x k then 1 else 0) ks) = 0.
Proof.
  induction ks as [|k ks IH]; intro H; simpl; [reflexivity|].
  destruct (Str.eqb x k) eqn:E.
  - apply eqb_eq in E. subst k. exfalso. apply H. left. reflexivity.
  - apply IH. intro Hin. apply H. right. exact Hin.
Qed.

Lemma indicator_once (x : str) (ks : list str) :
  NoDup ks -> In x ks ->
  list_sum (map (fun k => if Str.eqb x k then 1 else 0) ks) = 1.
Proof.
  induction 1 as [|k ks Hk Hnd IH]; intro Hin; [destruct Hin|]. simpl.
  destruct (Str.eqb x k) eqn:E.
  - apply eqb_eq in E. subst k. rewrite indicator_absent by exact Hk. reflexivity.
  - destruct Hin as [-> | Hin]; [rewrite eqb_refl in E; discriminate|].
    apply IH. exact Hin.
Qed.

(** Distinct keys that cover the rows split them: the sizes of the groups
    add up to the number of rows. *)
Lemma groups_partition (rows : list TrafficRecord) (ks : list str) :
  NoDup ks ->
  (forall r, In r rows -> In (street_name r) ks) ->
  list_sum (map (fun k => length (filter (fun r => Str.eqb (street_name r) k) rows)) ks)
  = length rows.
Proof.
  intros Hnd. induction rows as [|r rows IH]; intro Hin.
  - clear. induction ks as [|k ks IH]; simpl; [reflexivity | exact IH].
  - rewrite (map_ext _ (fun k => (if Str.eqb (street_name r) k then 1 else 0)
                                 + length (filter (fun r => Str.eqb (street_name r) k) rows))).
    + rewrite list_sum_add, IH, indicator_once; try assumption.
      * reflexivity.
      * apply Hin. left. reflexivity.
      * intros r' Hr'. apply Hin. right. exact Hr'.
    + intro k. simpl. destruct (Str.eqb (street_name r) k); reflexivity.
Qed.

Lemma build_index_sizes (df : DataFrame) :
  empty df = false ->
  list_sum (map (fun kv => sample_size (snd kv)) (_build_street_index df))
  = length (records df).
Proof.
  intro He. unfold _build_street_index. rewrite He.
  rewrite map_map. cbn [snd sample_size]. unfold rows_of.
  apply groups_partition.
  - apply distinct_nodup.
  - intros r Hr. apply distinct_in. apply in_map. exact Hr.
Qed.

(** The counts of the loaded records are the counts read. *)
Lemma load_data_counts (csv : Csv) :
  forallb (fun col => has_column col (csv_columns csv)) required_cols = true ->
  map total_count (records (_load_data (Some csv)))
  = map count_read (csv_rows csv).
Proof.
  intro H. rewrite (required_present csv H). cbn [records].
  rewrite map_map. reflexivity.
Qed.

(** The row a record of the loaded frame comes from. *)
Lemma loaded_row (csv : Csv) (r : RawRow) :
  forallb (fun col => has_column col (csv_columns csv)) required_cols = true ->
  In r (csv_rows csv) ->
  exists rec,
    In rec (records (_load_data (Some csv)))
    /\ street_name rec = cleaned_name r
    /\ total_count rec = count_read r.
Proof.
  intros H Hin. rewrite (required_present csv H). cbn [records].
  eexists. split.
  - apply in_map. exact Hin.
  - split; reflexivity.
Qed.

End LoaderFacts.

(** X2: the index counts every row of the dataset once: the sample sizes
    of its entries add up to the number of rows the loader kept; for a
    file that has the required columns the records are the rows of the
    file, in order, each with its cleaned name and the count read, 0 when
    no count could be read; and the street of a row without a readable
    count has an entry whose minimum is at most 0 and whose maximum is at
    least 0. *)
Theorem X2_sample_sizes_cover_the_rows :
  forall (file : option Csv),
    list_sum (map (fun kv => sample_size (snd kv)) (street_index (init file)))
    = length (records (traffic_df (init file)))
    /\ forall csv,
        file = Some csv ->
        has_column (lit "street_name") (csv_columns csv) = true ->
        has_column (lit "total_count") (csv_columns csv) = true ->
        length (records (traffic_df (init file))) = length (csv_rows csv)
        /\ map street_name (records (traffic_df (init file)))
           = map (fun r => strip (upper (raw_street_name r))) (csv_rows csv)
        /\ map total_count (records (traffic_df (init file)))
           = map (fun r => match raw_total_count r with
                           | Some n => n
                           | None => 0%Q
                           end)
                 (csv_rows csv)
        /\ forall r,
            In r (csv_rows csv) ->
            raw_total_count r = None ->
            exists e,
              lookup (strip (upper (raw_street_name r))) (street_index (init file))
              = Some e
              /\ (min_count e <= 0 <= max_count e)%Q.
Proof.
  intro file. unfold init. cbn [street_index traffic_df]. split.
  - destruct (empty (_load_data file)) eqn:He.
    + rewrite (build_index_of_empty _ He).
      apply load_data_empty in He. rewrite He. reflexivity.
    + apply build_index_sizes. exact He.
  - intros csv -> H1 H2.
    assert (Hreq : forallb (fun col => has_column col (csv_columns csv))
                           required_cols = true).
    { unfold required_cols. cbn [forallb]. rewrite H1, H2. reflexivity. }
    split; [apply load_data_length; exact Hreq|].
    split; [apply load_data_names; exact Hreq|].
    split; [apply load_data_counts; exact Hreq|].
    intros r Hin Hnone.
    destruct (loaded_row csv r Hreq Hin) as (rec & Hrec & Hname & Hcount).
    fold (cleaned_name r).
    assert (He : empty (_load_data (Some csv)) = false).
    { destruct (empty (_load_data (Some csv))) eqn:E; [|reflexivity].
      apply load_data_empty in E. rewrite E in Hrec. destruct Hrec. }
    assert (Hkey : In (cleaned_name r)
                      (map street_name (records (_load_data (Some csv))))).
    { rewrite <- Hname. apply in_map. exact Hrec. }
    destruct (build_index_hit _ _ He Hkey) as (e & Hl & _).
    exists e. split; [exact Hl|].
    apply build_index_lookup in Hl.
    destruct Hl as (_ & _ & Hmax & Hmin & _).
    assert (Hzero : In 0%Q (map total_count
                                (rows_of (_load_data (Some csv)) (cleaned_name r)))).
    { apply in_map_iff. exists rec. split.
      - rewrite Hcount. unfold count_read. rewrite Hnone. reflexivity.
      - unfold rows_of. apply filter_In. split; [exact Hrec|].
        apply eqb_eq. exact Hname. }
    assert (Hne : map total_count
                      (rows_of (_load_data (Some csv)) (cleaned_name r)) <> []).
    { intro E. rewrite E in Hzero. destruct Hzero. }
    destruct (maximum_spec _ Hne) as [_ Fmax].
    destruct (minimum_spec _ Hne) as [_ Fmin].
    rewrite Forall_forall in Fmax, Fmin.
    rewrite Hmax, Hmin. split; [apply Fmin | apply Fmax]; exact Hzero.
Qed.

(** Instances: the five rows of [dated_csv]; in [calm_csv] the count of
    the third row could not be read, and its street is indexed with 0. *)
Lemma X2_sample_sizes_witness :
  (list_sum (map (fun kv => sample_size (snd kv)) (street_index (init (Some dated_csv))))
   = 5
   /\ length (csv_rows dated_csv) = 5)
  /\ map total_count (records (traffic_df (init (Some calm_csv))))
     = [1000; 2000; 0]%Q
  /\ exists e,
      lookup (lit "ELM   CT") (street_index (init (Some calm_csv))) = Some e
      /\ (min_count e <= 0 <= max_count e)%Q.
Proof.
  destruct (X2_sample_sizes_cover_the_rows (Some dated_csv)) as [Hsum Hlen].
  destruct (Hlen dated_csv eq_refl eq_refl eq_refl) as [Hrows _].
  split; [rewrite Hsum, Hrows; split; reflexivity|].
  destruct (X2_sample_sizes_cover_the_rows (Some calm_csv)) as [_ Hcalm].
  destruct (Hcalm calm_csv eq_refl eq_refl eq_refl) as (_ & _ & Hcounts & Hzero).
  split; [rewrite Hcounts; reflexivity|].
  apply (Hzero (raw_row "  elm   ct " None None)); [|reflexivity].
  right. right. left. reflexivity.
Defined.

(** X3: in every entry the average lies between the minimum and the
    maximum of the street, and the sample size is at least one. *)
Theorem X3_entry_average_within_range :
  forall (df : DataFrame) (name : str) (e : Entry),
    lookup name (_build_street_index df) = Some e ->
    (min_count e <= avg_count e <= max_count e)%Q /\ 1 <= sample_size e.
Proof.
  intros df name e H.
  apply build_index_lookup in H.
  destruct H as (Hin & Havg & Hmax & Hmin & Hn).
  pose proof (rows_of_nonempty df name Hin) as Hne.
  set (group := rows_of df name) in *.
  assert (Hc : map total_count group <> []).
  { destruct group; [congruence | discriminate]. }
  destruct (maximum_spec _ Hc) as [_ Hle].
  destruct (minimum_spec _ Hc) as [_ Hge].
  rewrite <- Hmax in Hle. rewrite <- Hmin in Hge.
  assert (Hboth : Forall (fun x => min_count e <= x <= max_count e)%Q
                         (map total_count group)).
  { rewrite Forall_forall in *. intros x Hx. split; [apply Hge | apply Hle]; exact Hx. }
  split.
  - rewrite Havg.
    destruct (has_column (lit "date_count") (columns df)).
    + apply mean_bounds.
      * pose proof (stable_sort_perm _ more_recent group) as Hp.
        fold (sort_by_date_desc group) in Hp.
        destruct (sort_by_date_desc group) as [|x l];
          [apply Permutation_nil in Hp; congruence | discriminate].
      * rewrite Forall_forall in *. intros x Hx.
        apply in_map_iff in Hx. destruct Hx as (r & <- & Hr).
        apply firstn_in in Hr.
        apply (proj1 (stable_sort_in _ more_recent r group)) in Hr.
        apply Hboth. apply in_map. exact Hr.
    + apply mean_bounds; assumption.
  - rewrite Hn. destruct group; [congruence | simpl; lia].
Qed.

Lemma X3_entry_average_witness :
  exists e,
    lookup (lit "A ST") (_build_street_index (_load_data (Some dated_csv))) = Some e
    /\ (min_count e <= avg_count e <= max_count e)%Q /\ 1 <= sample_size e.
Proof.
  eexists. split; [reflexivity|].
  apply (X3_entry_average_within_range (_load_data (Some dated_csv)) (lit "A ST")).
  reflexivity.
Defined.

(** X4: every key of the index is in upper case and has no space at
    either end. *)
Theorem X4_index_keys_are_cleaned :
  forall (file : option Csv) (k : str),
    In k (map fst (street_index (init file))) ->
    upper k = k /\ strip k = k.
Proof.
  intros file k Hin. unfold init in Hin. cbn [street_index] in Hin.
  destruct (empty (_load_data file)) eqn:He.
  - rewrite (build_index_of_empty _ He) in Hin. destruct Hin.
  - rewrite (build_index_keys _ He) in Hin.
    apply (proj1 (distinct_in _ _)) in Hin.
    destruct file as [csv|]; [|discriminate].
    destruct (forallb (fun col => has_column col (csv_columns csv)) required_cols)
      eqn:Hreq.
    + rewrite (load_data_names csv Hreq) in Hin.
      apply in_map_iff in Hin. destruct Hin as (r & <- & _).
      apply cleaned_name_fixed.
    + unfold _load_data in He. rewrite Hreq in He. discriminate.
Qed.

Lemma X4_index_keys_witness :
  upper (lit "ELM   CT") = lit "ELM   CT" /\ strip (lit "ELM   CT") = lit "ELM   CT".
Proof.
  apply (X4_index_keys_are_cleaned (Some calm_csv) (lit "ELM   CT")).
  right. right. left. reflexivity.
Defined.

(** ** Looking a street up *)

Section LookupFacts.
Local Open Scope Q_scope.

Lemma lookup_in (A : Type) (k : str) (d : list (str * A)) (v : A) :
  lookup k d = Some v -> In (k, v) d.
Proof.
  induction d as [|[k' v'] d IH]; simpl; [discriminate|].
  destruct (Str.eqb k' k) eqn:E.
  - intro H. inversion H. subst v'. apply eqb_eq in E. subst k'. left. reflexivity.
  - intro H. right. apply IH. exact H.
Qed.

Lemma partial_matches_in (idx : list (str * Entry)) (normalized : str) (x : Q) :
  In x (flat_map (fun kv : str * Entry =>
                    let (indexed_street, data) := kv in
                    if contains indexed_street normalized
                       || contains normalized indexed_street
                    then [avg_count data] else []) idx) ->
  In x (map (fun kv => avg_count (snd kv)) idx).
Proof.
  induction idx as [|[k e] idx IH]; simpl; [tauto|].
  rewrite in_app_iff. intros [H | H]; [|right; apply IH; exact H].
  destruct (contains k normalized || contains normalized k);
    [destruct H as [<- | []]; left; reflexivity | destruct H].
Qed.

(** A count the lookup reports is an average of the index or a mean of
    some of them. *)
Lemma get_traffic_count_source (self : TrafficData) (name : str) (c : Q) :
  get_traffic_count self name = Some c ->
  exists l, l <> []
            /\ (forall x, In x l ->
                          In x (map (fun kv => avg_count (snd kv)) (street_index self)))
            /\ c == mean l.
Proof.
  unfold get_traffic_count.
  destruct (empty (traffic_df self)); [discriminate|].
  destruct (lookup _ (street_index self)) as [e|] eqn:El.
  - intro H. inversion H. subst c. exists [avg_count e].
    split; [discriminate|]. split.
    + intros x [<- | []]. apply lookup_in in El.
      apply (in_map (fun kv => avg_count (snd kv))) in El. exact El.
    + unfold mean, sum. simpl. field.
  - set (ms := flat_map _ (street_index self)).
    destruct ms as [|m ms'] eqn:Em; [discriminate|].
    intro H. inversion H. exists (m :: ms'). split; [discriminate|].
    split; [|apply Qeq_refl].
    intros x Hx. apply (partial_matches_in (street_index self)
                          (_normalize_street_name name)).
    fold ms. rewrite Em. exact Hx.
Qed.

Lemma all_spaces_strip (s : str) :
  Forall (fun c => is_space c = true) s -> strip (upper s) = [].
Proof.
  intro H. unfold strip.
  assert (E : lstrip (upper s) = []).
  { induction H as [|c s Hc _ IH]; [reflexivity|]. simpl.
    rewrite upper_char_space, Hc. exact IH. }
  rewrite E. reflexivity.
Qed.

Lemma all_spaces_normalize (s : str) :
  Forall (fun c => is_space c = true) s -> _normalize_street_name s = [].
Proof.
  intro H. rewrite normalize_unfold, (all_spaces_strip s H). reflexivity.
Qed.

End LookupFacts.

(** X5: a street of the dataset whose cleaned name is in normal form is
    found by the name the file gives it: the classifier reports the tier
    of the average stored under the cleaned name. *)
Theorem X5_dataset_street_is_found :
  forall (csv : Csv) (r : RawRow),
    has_column (lit "street_name") (csv_columns csv) = true ->
    has_column (lit "total_count") (csv_columns csv) = true ->
    In r (csv_rows csv) ->
    _normalize_street_name (cleaned_name r) = cleaned_name r ->
    exists e,
      lookup (cleaned_name r) (street_index (init (Some csv))) = Some e
      /\ get_traffic_level (init (Some csv)) (raw_street_name r)
         = (known (tier_of (avg_count e)),
            CONGESTION_MULTIPLIERS (tier_of (avg_count e)),
            Some (avg_count e)).
Proof.
  intros csv r H1 H2 Hr Hnorm.
  assert (Hreq : forallb (fun col => has_column col (csv_columns csv)) required_cols
                 = true).
  { unfold required_cols. cbn [forallb]. rewrite H1, H2. reflexivity. }
  assert (Hne : empty (_load_data (Some csv)) = false).
  { destruct (empty (_load_data (Some csv))) eqn:He; [|reflexivity].
    apply load_data_empty in He.
    apply (f_equal (@length TrafficRecord)) in He.
    rewrite (load_data_length csv Hreq) in He.
    destruct (csv_rows csv); [destruct Hr | discriminate]. }
  destruct (build_index_hit (_load_data (Some csv)) (cleaned_name r) Hne)
    as (e & Hl & _).
  { rewrite (load_data_names csv Hreq). apply in_map. exact Hr. }
  exists e. split; [exact Hl|].
  apply get_traffic_level_known. apply get_traffic_count_exact; [exact Hne|].
  assert (E : _normalize_street_name (raw_street_name r) = cleaned_name r).
  { rewrite <- Hnorm. unfold cleaned_name.
    rewrite normalize_strip, normalize_upper. reflexivity. }
  unfold init. cbn [street_index]. rewrite E. exact Hl.
Qed.

Lemma X5_dataset_street_witness :
  exists e,
    lookup (lit "MAIN ST") (street_index (init (Some example_csv))) = Some e
    /\ get_traffic_level (init (Some example_csv)) (lit "Main St")
       = (known (tier_of (avg_count e)),
          CONGESTION_MULTIPLIERS (tier_of (avg_count e)),
          Some (avg_count e)).
Proof.
  apply (X5_dataset_street_is_found example_csv (raw_row "Main St" (Some 5000%Q) None));
    try reflexivity.
  left. reflexivity.
Defined.

(** X6: a count the lookup reports, by an exact hit or by the substring
    fallback, lies between the least and the greatest average of the
    index. *)
Theorem X6_reported_count_within_index :
  forall (self : TrafficData) (name : str) (count : Q),
    get_traffic_count self name = Some count ->
    let averages := map (fun kv => avg_count (snd kv)) (street_index self) in
    (minimum averages <= count <= maximum averages)%Q.
Proof.
  intros self name count H averages.
  destruct (get_traffic_count_source self name count H) as (l & Hne & Hin & Hc).
  assert (Ha : averages <> []).
  { destruct l as [|x l]; [congruence|].
    intro E. specialize (Hin x (or_introl eq_refl)).
    fold averages in Hin. rewrite E in Hin. exact Hin. }
  destruct (maximum_spec averages Ha) as [_ Hmax].
  destruct (minimum_spec averages Ha) as [_ Hmin].
  rewrite Hc. apply mean_bounds; [exact Hne|].
  rewrite Forall_forall in *. intros x Hx. apply Hin in Hx. fold averages in Hx.
  split; [apply Hmin | apply Hmax]; exact Hx.
Qed.

Lemma X6_reported_count_witness :
  (minimum (map (fun kv => avg_count (snd kv)) (street_index example_data))
   <= 5000
   <= maximum (map (fun kv => avg_count (snd kv)) (street_index example_data)))%Q.
Proof.
  apply (X6_reported_count_within_index example_data (lit "st") 5000%Q).
  reflexivity.
Defined.

(** X7: the level resource rejects only the empty street.  A street made
    of spaces passes and is classified like the empty name: when the index
    has entries and none under the empty key, the answer is 200 with the
    tier of the mean of every average of the index. *)
Theorem X7_blank_street_is_answered :
  forall (self : TrafficData) (street : str),
    street <> [] ->
    Forall (fun c => is_space c = true) street ->
    empty (traffic_df self) = false ->
    lookup [] (street_index self) = None ->
    street_index self <> [] ->
    let m := mean (map (fun kv => avg_count (snd kv)) (street_index self)) in
    _GetTrafficLevel_get self (Some street)
    = answered {| b_street := street;
                  b_traffic_level := known (tier_of m);
                  b_congestion_multiplier := CONGESTION_MULTIPLIERS (tier_of m);
                  b_vehicle_count := Some m |} 200.
Proof.
  intros self street Hne Hsp Hdf Hl Hidx m.
  unfold _GetTrafficLevel_get, arg_or_empty.
  destruct street as [|c street]; [congruence|].
  rewrite (get_traffic_level_normalized self (c :: street) []
             (all_spaces_normalize _ Hsp)).
  rewrite (get_traffic_level_known self [] m
             (empty_name_matches_every_key self Hdf Hl Hidx)).
  reflexivity.
Qed.

Lemma X7_blank_street_witness :
  _GetTrafficLevel_get example_data (Some (lit " "))
  = answered {| b_street := lit " ";
                b_traffic_level := known moderate;
                b_congestion_multiplier := 1%Q;
                b_vehicle_count := Some (25000 # 2)%Q |} 200
  /\ _GetTrafficLevel_get example_data (Some []) = failed "Street parameter is required" 400
  /\ _GetTrafficLevel_get example_data None = failed "Street parameter is required" 400.
Proof.
  split; [|split; reflexivity].
  apply (X7_blank_street_is_answered example_data (lit " ")).
  - discriminate.
  - repeat constructor.
  - reflexivity.
  - reflexivity.
  - discriminate.
Defined.

(** ** Composing routes *)

Section RouteFacts.
Local Open Scope Q_scope.

Lemma route_candidates_app (s1 s2 : list Step) :
  route_candidates (s1 ++ s2) = route_candidates s1 ++ route_candidates s2.
Proof. apply flat_map_app. Qed.

Lemma tier_multipliers_app (self : TrafficData) (s1 s2 : list Step) :
  tier_multipliers self (s1 ++ s2)
  = tier_multipliers self s1 ++ tier_multipliers self s2.
Proof.
  unfold tier_multipliers. rewrite route_candidates_app. apply flat_map_app.
Qed.

Lemma route_details_app (self : TrafficData) (s1 s2 : list Step) :
  route_details self (s1 ++ s2) = route_details self s1 ++ route_details self s2.
Proof.
  unfold route_details. rewrite route_candidates_app. apply flat_map_app.
Qed.

(** Steps with the same candidates give the same result. *)
Lemma same_candidates (self : TrafficData) (s1 s2 : list Step) :
  route_candidates s1 = route_candidates s2 ->
  calculate_route_adjustment self s1 = calculate_route_adjustment self s2.
Proof.
  intro E. rewrite !calculate_route_adjustment_eq.
  unfold tier_multipliers, route_details. rewrite E. reflexivity.
Qed.

Lemma unknown_candidates (self : TrafficData) (streets : list str) :
  (forall street, In street streets ->
                  fst (fst (get_traffic_level self street)) = unknown) ->
  flat_map (tier_multiplier self) streets = []
  /\ flat_map (detail_of self) streets = [].
Proof.
  induction streets as [|s streets IH]; intro H; [split; reflexivity|].
  destruct IH as [IH1 IH2]; [intros x Hx; apply H; right; exact Hx|].
  simpl. rewrite IH1, IH2. unfold tier_multiplier, detail_of.
  specialize (H s (or_introl eq_refl)).
  destruct (get_traffic_level self s) as [[l m] c]. simpl in H. subst l.
  split; reflexivity.
Qed.

Lemma upper_empty (s : str) : upper s = [] <-> s = [].
Proof. destruct s; simpl; split; congruence. Qed.

Lemma extract_upper (i : str) :
  _extract_street_from_instruction (upper i) = _extract_street_from_instruction i.
Proof.
  destruct i as [|c i]; [reflexivity|].
  unfold _extract_street_from_instruction.
  change (upper (c :: i)) with (upper_char c :: upper i) at 1.
  cbv iota. change (upper_char c :: upper i) with (upper (c :: i)).
  rewrite upper_idempotent. reflexivity.
Qed.

Lemma step_candidates_upper (st : Step) :
  step_candidates (upper_step st) = step_candidates st.
Proof.
  unfold step_candidates, upper_step. destruct (instruction st) as [i|]; simpl.
  - apply extract_upper.
  - reflexivity.
Qed.

Lemma round_half_even_comp (p q : Q) :
  p == q -> round_half_even p = round_half_even q.
Proof.
  intro E. unfold round_half_even.
  rewrite (Qfloor_comp _ _ E).
  assert (E' : p - inject_Z (Qfloor q) == q - inject_Z (Qfloor q))
    by (rewrite E; reflexivity).
  rewrite (Qcompare_comp _ _ E' (1 # 2) (1 # 2) (Qeq_refl _)).
  reflexivity.
Qed.

Lemma round3_comp (p q : Q) : p == q -> round3 p = round3 q.
Proof.
  intro E. unfold round3.
  rewrite (round_half_even_comp (p * 1000) (q * 1000)); [reflexivity|].
  rewrite E. reflexivity.
Qed.

Lemma round3_table (t : tier) :
  round3 (CONGESTION_MULTIPLIERS t) == CONGESTION_MULTIPLIERS t.
Proof. destruct t; reflexivity. Qed.

Lemma confidence_of_mono (n m : nat) :
  (n <= m)%nat ->
  (confidence_rank (confidence_of n) <= confidence_rank (confidence_of m))%nat.
Proof.
  intro H. unfold confidence_of.
  destruct (5 <=? n)%nat eqn:N5, (5 <=? m)%nat eqn:M5,
           (2 <=? n)%nat eqn:N2, (2 <=? m)%nat eqn:M2;
    simpl; try lia;
    repeat match goal with
           | H : (_ <=? _) = true |- _ => apply Nat.leb_le in H
           | H : (_ <=? _) = false |- _ => apply Nat.leb_gt in H
           end; lia.
Qed.

Lemma result_count (self : TrafficData) (route_steps : list Step) :
  streets_matched (calculate_route_adjustment self route_steps)
  = length (tier_multipliers self route_steps)
  /\ confidence (calculate_route_adjustment self route_steps)
     = confidence_of (length (tier_multipliers self route_steps))
  /\ street_details (calculate_route_adjustment self route_steps)
     = route_details self route_steps.
Proof.
  rewrite calculate_route_adjustment_eq.
  pose proof (details_length self (route_candidates route_steps)) as Hlen.
  fold (route_details self route_steps) in Hlen.
  fold (tier_multipliers self route_steps) in Hlen.
  destruct (tier_multipliers self route_steps); repeat split.
  simpl. destruct (route_details self route_steps); [reflexivity | discriminate].
Qed.

End RouteFacts.

(** X8: a step none of whose candidates is known to the classifier (a step
    without instruction, or naming no street of the index) leaves the
    result of the route as it is without the step. *)
Theorem X8_step_without_known_street_is_neutral :
  forall (self : TrafficData) (before after : list Step) (step : Step),
    (forall street, In street (step_candidates step) ->
                    fst (fst (get_traffic_level self street)) = unknown) ->
    calculate_route_adjustment self (before ++ step :: after)
    = calculate_route_adjustment self (before ++ after).
Proof.
  intros self before after step H.
  destruct (unknown_candidates self (step_candidates step) H) as [Hm Hd].
  rewrite !calculate_route_adjustment_eq.
  change (step :: after) with ([step] ++ after).
  rewrite !tier_multipliers_app, !route_details_app.
  unfold tier_multipliers at 2. unfold route_details at 2.
  unfold route_candidates. cbn [flat_map]. rewrite !app_nil_r.
  rewrite Hm, Hd. reflexivity.
Qed.

Lemma X8_neutral_step_witness :
  calculate_route_adjustment example_data
    ([step_of "Main St"] ++ {| instruction := None |} :: [step_of "Elm Av"])
  = calculate_route_adjustment example_data ([step_of "Main St"] ++ [step_of "Elm Av"]).
Proof.
  apply (X8_step_without_known_street_is_neutral example_data).
  intros street [].
Defined.

(** X9: the result of a route does not depend on the letter case of its
    instructions. *)
Theorem X9_route_ignores_case :
  forall (self : TrafficData) (route_steps : list Step),
    calculate_route_adjustment self (map upper_step route_steps)
    = calculate_route_adjustment self route_steps.
Proof.
  intros self route_steps. apply same_candidates.
  unfold route_candidates.
  induction route_steps as [|st rest IH]; [reflexivity|].
  simpl. rewrite step_candidates_upper, IH. reflexivity.
Qed.

(** X10: without data (an empty frame) every route gets the identity
    adjustment, every search is empty and every street is unknown. *)
Theorem X10_no_data_degrades :
  forall (self : TrafficData),
    empty (traffic_df self) = true ->
    (forall route_steps,
        calculate_route_adjustment self route_steps = identity_adjustment)
    /\ (forall query limit, search_streets self query limit = [])
    /\ (forall name, get_traffic_level self name = (unknown, 1%Q, None))
    /\ get_stats self = no_data.
Proof.
  intros self He.
  assert (Hu : forall name, get_traffic_level self name = (unknown, 1%Q, None)).
  { intro name. apply get_traffic_level_unknown.
    unfold get_traffic_count. rewrite He. reflexivity. }
  split; [|split; [|split]].
  - intro route_steps. rewrite calculate_route_adjustment_eq.
    destruct (unknown_candidates self (route_candidates route_steps)) as [Hm _].
    { intros street _. rewrite Hu. reflexivity. }
    unfold tier_multipliers. rewrite Hm. reflexivity.
  - intros query limit. unfold search_streets. rewrite He. reflexivity.
  - exact Hu.
  - unfold get_stats. rewrite He. reflexivity.
Qed.

Lemma X10_no_data_witness :
  (forall route_steps,
      calculate_route_adjustment (init None) route_steps = identity_adjustment)
  /\ (forall query limit, search_streets (init None) query limit = [])
  /\ (forall name, get_traffic_level (init None) name = (unknown, 1%Q, None))
  /\ get_stats (init None) = no_data.
Proof. apply (X10_no_data_degrades (init None)). reflexivity. Defined.

(** X11: when the streets a route matches are all of one tier, the route
    multiplier is the multiplier of that tier. *)
Theorem X11_single_tier_route :
  forall (self : TrafficData) (route_steps : list Step) (t : tier),
    tier_multipliers self route_steps <> [] ->
    (forall street l m c,
        In street (route_candidates route_steps) ->
        get_traffic_level self street = (l, m, c) ->
        l = unknown \/ l = known t) ->
    multiplier (calculate_route_adjustment self route_steps)
    == CONGESTION_MULTIPLIERS t.
Proof.
  intros self route_steps t Hne Hall.
  rewrite calculate_route_adjustment_eq.
  assert (Hms : Forall (fun x => CONGESTION_MULTIPLIERS t <= x
                                 <= CONGESTION_MULTIPLIERS t)%Q
                       (tier_multipliers self route_steps)).
  { unfold tier_multipliers.
    induction (route_candidates route_steps) as [|s streets IH]; [constructor|].
    simpl. apply Forall_app. split.
    - unfold tier_multiplier.
      destruct (get_traffic_level self s) as [[[|t'] m] c] eqn:E; [constructor|].
      destruct (Hall s (known t') m c (or_introl eq_refl) E) as [H | H];
        [discriminate|].
      inversion H. subst t'. constructor; [|constructor].
      split; apply Qle_refl.
    - apply IH. intros street l m c Hin. apply Hall. right. exact Hin. }
  destruct (tier_multipliers self route_steps) as [|m ms] eqn:E; [congruence|].
  cbn [multiplier].
  assert (Hmean : mean (m :: ms) == CONGESTION_MULTIPLIERS t).
  { destruct (mean_bounds _ _ (m :: ms) ltac:(discriminate) Hms) as [H1 H2].
    apply Qle_antisym; assumption. }
  rewrite (round3_comp _ _ Hmean). apply round3_table.
Qed.

Lemma X11_single_tier_witness :
  multiplier (calculate_route_adjustment calm_data calm_route)
  == CONGESTION_MULTIPLIERS very_low.
Proof.
  apply (X11_single_tier_route calm_data calm_route very_low).
  - discriminate.
  - intros street l m c Hin E. vm_compute in Hin.
    destruct Hin as [<- | [<- | []]]; vm_compute in E; inversion E; auto.
Defined.

(** X12: the matched counts of two routes add up when the routes are put
    one after the other, the details follow each other, and the confidence
    of the whole is never below the confidence of a part. *)
Theorem X12_routes_compose :
  forall (self : TrafficData) (first second : list Step),
    let whole := calculate_route_adjustment self (first ++ second) in
    let a := calculate_route_adjustment self first in
    let b := calculate_route_adjustment self second in
    streets_matched whole = streets_matched a + streets_matched b
    /\ street_details whole = street_details a ++ street_details b
    /\ confidence_rank (confidence a) <= confidence_rank (confidence whole)
    /\ confidence_rank (confidence b) <= confidence_rank (confidence whole).
Proof.
  intros self first second whole a b. subst whole a b.
  destruct (result_count self (first ++ second)) as (Hn & Hc & Hd).
  destruct (result_count self first) as (Hn1 & Hc1 & Hd1).
  destruct (result_count self second) as (Hn2 & Hc2 & Hd2).
  rewrite Hn, Hc, Hd, Hn1, Hc1, Hd1, Hn2, Hc2, Hd2.
  rewrite tier_multipliers_app, route_details_app, length_app.
  repeat split; apply confidence_of_mono; lia.
Qed.

(** ** Searching *)

Section SearchFacts.

Lemma search_streets_eq (self : TrafficData) (query : str) (limit : Z) :
  empty (traffic_df self) = false ->
  query <> [] ->
  search_streets self query limit
  = slice_to (stable_sort (by_relevance (upper query))
                          (matching_entries self (upper query))) limit.
Proof.
  intros He Hq. unfold search_streets. rewrite He.
  destruct query; [congruence | reflexivity].
Qed.

Lemma search_streets_none (self : TrafficData) (query : str) (limit : Z) :
  empty (traffic_df self) = true \/ query = [] ->
  search_streets self query limit = [].
Proof.
  unfold search_streets. intros [He | ->].
  - rewrite He. reflexivity.
  - destruct (empty (traffic_df self)); reflexivity.
Qed.

Lemma matching_entries_names (self : TrafficData) (q : str) :
  map m_street_name (matching_entries self q)
  = filter (fun k => contains k q) (map fst (street_index self)).
Proof.
  unfold matching_entries.
  induction (street_index self) as [|[k e] idx IH]; [reflexivity|].
  cbn [flat_map map fst filter]. rewrite map_app, IH.
  destruct (contains k q); [|reflexivity].
  destruct (get_traffic_level self k) as [[l m] c]. reflexivity.
Qed.

Lemma matching_entries_levels (self : TrafficData) (q : str) :
  Forall (fun m => m_traffic_level m
                   = fst (fst (get_traffic_level self (m_street_name m))))
         (matching_entries self q).
Proof.
  unfold matching_entries.
  induction (street_index self) as [|[k e] idx IH]; [constructor|].
  cbn [flat_map]. apply Forall_app. split; [|exact IH].
  destruct (contains k q); [|constructor].
  destruct (get_traffic_level self k) as [[l m] c] eqn:E.
  constructor; [|constructor]. cbn [m_traffic_level m_street_name].
  rewrite E. reflexivity.
Qed.

Lemma matching_entries_complete (self : TrafficData) (q k : str) (e : Entry) :
  In (k, e) (street_index self) ->
  contains k q = true ->
  exists m, In m (matching_entries self q)
            /\ m_street_name m = k
            /\ m_avg_count m = round0 (avg_count e)
            /\ m_sample_size m = sample_size e.
Proof.
  unfold matching_entries.
  induction (street_index self) as [|[k' e'] idx IH]; intros Hin Hc; [destruct Hin|].
  cbn [flat_map]. destruct Hin as [E | Hin].
  - inversion E. subst k' e'. rewrite Hc.
    destruct (get_traffic_level self k) as [[l m] c].
    eexists. split; [apply in_or_app; left; left; reflexivity|].
    repeat split.
  - destruct (IH Hin Hc) as (m & Hm & H). exists m.
    split; [apply in_or_app; right; exact Hm | exact H].
Qed.

Lemma matching_entries_length (self : TrafficData) (q : str) :
  length (matching_entries self q) <= length (street_index self).
Proof.
  rewrite <- (length_map m_street_name), matching_entries_names.
  rewrite <- (length_map fst (street_index self)).
  induction (map fst (street_index self)) as [|k ks IH]; simpl; [lia|].
  destruct (contains k q); simpl; lia.
Qed.

Lemma slice_to_all (A : Type) (l : list A) (limit : Z) :
  (Z.of_nat (length l) <= limit)%Z -> slice_to l limit = l.
Proof.
  intro H. unfold slice_to.
  destruct (limit <? 0)%Z eqn:E; [apply Z.ltb_lt in E; lia|].
  apply firstn_all2. lia.
Qed.

Lemma slice_to_prefix (A : Type) (l : list A) (a b : Z) :
  (0 <= a <= b)%Z -> slice_to l a = firstn (Z.to_nat a) (slice_to l b).
Proof.
  intros [Ha Hb]. unfold slice_to.
  destruct (a <? 0)%Z eqn:Ea; [apply Z.ltb_lt in Ea; lia|].
  destruct (b <? 0)%Z eqn:Eb; [apply Z.ltb_lt in Eb; lia|].
  rewrite firstn_firstn. f_equal. lia.
Qed.

Lemma firstn_nodup (A : Type) (n : nat) (l : list A) :
  NoDup l -> NoDup (firstn n l).
Proof.
  intro H. rewrite <- (firstn_skipn n l) in H.
  apply NoDup_app_remove_r in H. exact H.
Qed.

Lemma firstn_forall (A : Type) (P : A -> Prop) (n : nat) (l : list A) :
  Forall P l -> Forall P (firstn n l).
Proof.
  intro H. rewrite Forall_forall in *. intros x Hx. apply H.
  apply (firstn_in _ n). exact Hx.
Qed.

End SearchFacts.

(** X13: with a limit no smaller than the index, the search returns every
    entry whose key contains the upper-cased query, with its rounded
    average and its sample size. *)
Theorem X13_search_is_complete :
  forall (self : TrafficData) (query : str) (limit : Z) (k : str) (e : Entry),
    empty (traffic_df self) = false ->
    query <> [] ->
    (Z.of_nat (length (street_index self)) <= limit)%Z ->
    In (k, e) (street_index self) ->
    contains k (upper query) = true ->
    exists m, In m (search_streets self query limit)
              /\ m_street_name m = k
              /\ m_avg_count m = round0 (avg_count e)
              /\ m_sample_size m = sample_size e.
Proof.
  intros self query limit k e He Hq Hlim Hin Hc.
  rewrite (search_streets_eq self query limit He Hq).
  rewrite slice_to_all.
  - destruct (matching_entries_complete self (upper query) k e Hin Hc)
      as (m & Hm & H).
    exists m. split; [|exact H]. apply stable_sort_in. exact Hm.
  - rewrite (Permutation_length (stable_sort_perm _ _ _)).
    pose proof (matching_entries_length self (upper query)). lia.
Qed.

Lemma X13_search_complete_witness :
  exists m, In m (search_streets example_data (lit "elm") 2)
            /\ m_street_name m = lit "ELM AV"
            /\ m_avg_count m = round0 20000
            /\ m_sample_size m = 1.
Proof.
  apply (X13_search_is_complete example_data (lit "elm") 2 (lit "ELM AV")
           (Build_Entry 20000 20000 20000 1));
    try reflexivity; try discriminate.
  right. left. reflexivity.
Defined.

(** X14: a search with a smaller limit returns the beginning of the
    search with a larger one (for limits that are not negative). *)
Theorem X14_search_limit_is_a_prefix :
  forall (self : TrafficData) (query : str) (a b : Z),
    (0 <= a <= b)%Z ->
    search_streets self query a
    = firstn (Z.to_nat a) (search_streets self query b).
Proof.
  intros self query a b H.
  destruct (empty (traffic_df self)) eqn:He.
  - rewrite !search_streets_none by (left; exact He).
    rewrite firstn_nil. reflexivity.
  - destruct query as [|c query].
    + rewrite !search_streets_none by (right; reflexivity).
      rewrite firstn_nil. reflexivity.
    + rewrite !search_streets_eq by (assumption || discriminate).
      apply slice_to_prefix. exact H.
Qed.

Lemma X14_search_prefix_witness :
  search_streets example_data (lit "a") 1
  = firstn (Z.to_nat 1) (search_streets example_data (lit "a") 5).
Proof.
  apply (X14_search_limit_is_a_prefix example_data (lit "a") 1 5). lia.
Defined.

(** X15: when the keys of the index are distinct, no street is returned
    twice; and the level shown with a street is the level the classifier
    gives for that key (which need not be the tier of the entry's own
    average, since the key is normalised again on the way). *)
Theorem X15_search_results_are_distinct :
  forall (self : TrafficData) (query : str) (limit : Z),
    distinct_keys self ->
    let found := search_streets self query limit in
    NoDup (map m_street_name found)
    /\ Forall (fun m => m_traffic_level m
                        = fst (fst (get_traffic_level self (m_street_name m))))
              found.
Proof.
  intros self query limit Hk found. subst found.
  destruct (empty (traffic_df self)) eqn:He.
  { rewrite search_streets_none by (left; exact He). split; constructor. }
  destruct query as [|c query].
  { rewrite search_streets_none by (right; reflexivity). split; constructor. }
  rewrite search_streets_eq by (assumption || discriminate).
  set (q := upper (c :: query)).
  pose proof (stable_sort_perm _ (by_relevance q) (matching_entries self q)) as Hp.
  destruct (slice_to_firstn _ (stable_sort (by_relevance q) (matching_entries self q))
                            limit) as [n ->].
  split.
  - rewrite <- firstn_map. apply firstn_nodup.
    apply (Permutation_NoDup (l := map m_street_name (matching_entries self q))).
    + symmetry. apply Permutation_map. exact Hp.
    + rewrite matching_entries_names. apply NoDup_filter. exact Hk.
  - apply firstn_forall.
    pose proof (matching_entries_levels self q) as Hl.
    rewrite Forall_forall in *. intros m Hm. apply Hl.
    apply (Permutation_in _ Hp). exact Hm.
Qed.

Lemma X15_search_distinct_witness :
  NoDup (map m_street_name (search_streets example_data (lit "a") 5))
  /\ Forall (fun m => m_traffic_level m
                      = fst (fst (get_traffic_level example_data (m_street_name m))))
            (search_streets example_data (lit "a") 5).
Proof.
  apply (X15_search_results_are_distinct example_data (lit "a") 5).
  unfold distinct_keys. vm_compute.
  constructor; [intros [H | []]; discriminate H|].
  constructor; [intros []|]. constructor.
Defined.

(** X16: the search resource answers 400 exactly for a missing or empty
    query; otherwise it answers 200, its count is the number of results,
    and without a readable limit the count is at most 10. *)
Theorem X16_search_resource :
  forall (self : TrafficData) (q_arg : option str) (limit_arg : option Z),
    match _SearchStreets_get self q_arg limit_arg with
    | failed _ status => status = 400 /\ arg_or_empty q_arg = []
    | answered body status =>
        status = 200
        /\ arg_or_empty q_arg <> []
        /\ b_count body = length (b_results body)
        /\ (limit_arg = None -> b_count body <= 10)
        /\ (forall n, limit_arg = Some n -> (0 <= n)%Z ->
                      (Z.of_nat (b_count body) <= n)%Z)
    end.
Proof.
  intros self q_arg limit_arg. unfold _SearchStreets_get.
  destruct (arg_or_empty q_arg) as [|c q] eqn:Eq; [split; reflexivity|].
  cbn [b_count b_results].
  split; [reflexivity|]. split; [discriminate|]. split; [reflexivity|]. split.
  - intros ->.
    pose proof (slice_to_length _ (stable_sort (by_relevance (upper (c :: q)))
                                     (matching_entries self (upper (c :: q))))
                                10%Z ltac:(lia)) as H.
    destruct (empty (traffic_df self)) eqn:He.
    + rewrite search_streets_none by (left; exact He). simpl. lia.
    + rewrite search_streets_eq by (assumption || discriminate). lia.
  - intros n -> Hn.
    destruct (empty (traffic_df self)) eqn:He.
    + rewrite search_streets_none by (left; exact He). simpl. lia.
    + rewrite search_streets_eq by (assumption || discriminate).
      apply slice_to_length. exact Hn.
Qed.

(** ** The statistics *)

Section StatsFacts.
Local Open Scope Q_scope.

Lemma round_half_even_mono (p q : Q) :
  p <= q -> (round_half_even p <= round_half_even q)%Z.
Proof.
  intro H.
  pose proof (Qfloor_resp_le _ _ H) as Hf.
  destruct (Z.eq_dec (Qfloor p) (Qfloor q)) as [E | NE].
  - unfold round_half_even. rewrite E.
    assert (Hr : p - inject_Z (Qfloor q) <= q - inject_Z (Qfloor q)).
    { apply Qplus_le_l. exact H. }
    destruct (Qcompare (p - inject_Z (Qfloor q)) (1 # 2)) eqn:Cp;
      destruct (Qcompare (q - inject_Z (Qfloor q)) (1 # 2)) eqn:Cq;
      try match goal with
          | |- context [Z.even ?f] => destruct (Z.even f)
          end;
      try lia; exfalso.
    + apply Qeq_alt in Cp. apply Qlt_alt in Cq.
      rewrite Cp in Hr. exact (Qlt_not_le _ _ Cq Hr).
    + apply Qgt_alt in Cp. apply Qeq_alt in Cq.
      rewrite Cq in Hr. exact (Qlt_not_le _ _ Cp Hr).
    + apply Qgt_alt in Cp. apply Qlt_alt in Cq.
      apply (Qlt_not_le _ _ (Qlt_trans _ _ _ Cq Cp) Hr).
  - destruct (round_half_even_floor p) as [-> | ->],
             (round_half_even_floor q) as [-> | ->]; lia.
Qed.

Lemma distinct_length (l : list str) : (length (distinct l) <= length l)%nat.
Proof.
  induction l as [|x l IH]; simpl; [lia|].
  pose proof (filter_length_le (fun y => negb (Str.eqb x y)) (distinct l)). lia.
Qed.

Lemma fold_dates_in_order (l : list (option Z)) (a b : option Z) :
  dates_in_order (Some a) (Some b) ->
  dates_in_order (Some (fold_left opt_min l a)) (Some (fold_left opt_max l b)).
Proof.
  revert a b. induction l as [|d l IH]; intros a b H; [exact H|].
  simpl. apply IH.
  destruct a as [x|], b as [y|], d as [z|]; simpl in *; try tauto; lia.
Qed.

End StatsFacts.

(** X17: when there is data, the statistics count every row, the number
    of streets is at least one and at most the number of rows, the rounded
    minimum, mean and maximum are in this order, and the earliest date is
    not after the latest. *)
Theorem X17_statistics_are_consistent :
  forall (file : option Csv) (s : Summary),
    get_stats (init file) = stats s ->
    total_records s = length (records (traffic_df (init file)))
    /\ 1 <= unique_streets s <= total_records s
    /\ (min_traffic_count s <= avg_traffic_count s <= max_traffic_count s)%Z
    /\ dates_in_order (earliest s) (latest s).
Proof.
  intros file s H. unfold get_stats, init in *. cbn [traffic_df street_index] in *.
  set (df := _load_data file) in *.
  destruct (empty df) eqn:He; [discriminate|].
  injection H as <-.
  cbn [total_records unique_streets avg_traffic_count max_traffic_count
       min_traffic_count earliest latest].
  assert (Hrec : records df <> []).
  { intro E. apply (proj2 (load_data_empty file)) in E. fold df in E. congruence. }
  split; [reflexivity|]. split; [|split].
  - rewrite <- (length_map fst), (build_index_keys df He).
    rewrite <- (length_map street_name (records df)).
    split; [|apply distinct_length].
    destruct (records df) as [|r rs]; [congruence|]. simpl. lia.
  - assert (Hc : map total_count (records df) <> []).
    { destruct (records df); [congruence | discriminate]. }
    destruct (maximum_spec _ Hc) as [_ Hmax].
    destruct (minimum_spec _ Hc) as [_ Hmin].
    assert (Hm : (minimum (map total_count (records df))
                  <= mean (map total_count (records df))
                  <= maximum (map total_count (records df)))%Q).
    { apply mean_bounds; [exact Hc|].
      rewrite Forall_forall in *. intros x Hx.
      split; [apply Hmin | apply Hmax]; exact Hx. }
    unfold round0. split; apply round_half_even_mono; apply Hm.
  - destruct (has_column _ (columns df)); [|exact I].
    apply fold_dates_in_order. exact I.
Qed.

Lemma X17_statistics_witness :
  exists s,
    get_stats (init (Some dated_csv)) = stats s
    /\ total_records s = 5
    /\ 1 <= unique_streets s <= total_records s
    /\ (min_traffic_count s <= avg_traffic_count s <= max_traffic_count s)%Z
    /\ dates_in_order (earliest s) (latest s).
Proof.
  eexists. split; [reflexivity|].
  destruct (X17_statistics_are_consistent (Some dated_csv) _ eq_refl)
    as (Ht & Hrest).
  split; [rewrite Ht; reflexivity | exact Hrest].
Defined.

(** ** The instruction parser *)

(** X18: the candidates of an instruction are pairwise different, each
    is longer than two characters, in upper case, and in normal form. *)
Theorem X18_candidates_are_normal :
  forall (instruction : str),
    NoDup (_extract_street_from_instruction instruction)
    /\ forall c, In c (_extract_street_from_instruction instruction) ->
                 2 < length c
                 /\ upper c = c
                 /\ _normalize_street_name c = c.
Proof.
  intro instruction. unfold _extract_street_from_instruction.
  destruct instruction as [|x i]; [split; [constructor | intros c []]|].
  split; [apply distinct_nodup|].
  intros c Hc. apply (proj1 (distinct_in _ _)) in Hc.
  apply in_flat_map in Hc. destruct Hc as (s & _ & Hc).
  destruct (_normalize_street_name s) as [|y n] eqn:E; [destruct Hc|].
  destruct (2 <? length (y :: n)) eqn:L; [|destruct Hc].
  destruct Hc as [<- | []]. rewrite <- E.
  split; [rewrite E; apply Nat.ltb_lt; exact L|]. split.
  - apply upper_fixed, normalize_upper_case.
  - apply normalize_twice.
Qed.

(** ** Stripping the markup of an instruction *)

Section StripHtml.

Lemma find_gt_split (s : str) (n : nat) :
  find_gt s = Some n ->
  s = firstn n s ++ ">"%char :: skipn (S n) s /\ n < length s.
Proof.
  revert n. induction s as [|c s IH]; intro n; simpl; [discriminate|].
  destruct (Ascii.eqb c ">") eqn:E.
  - intro H. inversion H. subst n. apply Ascii.eqb_eq in E. subst c.
    split; [reflexivity | lia].
  - destruct (find_gt s) as [m|]; [|discriminate].
    intro H. inversion H. subst n.
    destruct (IH m eq_refl) as [Hs Hl].
    split; [|lia]. cbn [firstn app]. f_equal. exact Hs.
Qed.

Lemma find_gt_none_app (a c : str) : find_gt (a ++ ">"%char :: c) <> None.
Proof.
  induction a as [|x a IH]; simpl; [discriminate|].
  destruct (Ascii.eqb x ">"); [discriminate|].
  destruct (find_gt (a ++ ">"%char :: c)); [discriminate | congruence].
Qed.

Lemma find_gt_tail (c : ascii) (s : str) :
  find_gt (c :: s) = None -> find_gt s = None.
Proof.
  simpl. destruct (Ascii.eqb c ">"); [discriminate|].
  destruct (find_gt s); [discriminate | reflexivity].
Qed.

(** What the part of the pattern after [<] does, against any
    continuation. *)
Lemma run_after_lt (R : Type) (s : str) (prev : option ascii) (cap : option str)
      (k : option ascii -> str -> option str -> option R) :
  Re.run (Re.Alt (Re.Seq (Re.Plus not_gt) (Re.Lit (lit ">"))) (Re.Lit (lit ">")))
         prev s cap k
  = match find_gt s with
    | Some n => k (Some ">"%char) (skipn (S n) s) cap
    | None => None
    end.
Proof.
  cbn [Re.run].
  assert (Hlit : forall p t,
             Re.lit_k (lit ">") p t (fun prev' s' => k prev' s' cap)
             = match find_gt t with
               | Some 0 => k (Some ">"%char) (skipn 1 t) cap
               | _ => None
               end).
  { intros p t. change (lit ">") with [">"%char].
    destruct t as [|c t]; [reflexivity|]. cbn [Re.lit_k find_gt skipn].
    rewrite (Ascii.eqb_sym ">" c).
    destruct (Ascii.eqb c ">") eqn:E.
    - apply Ascii.eqb_eq in E. subst c. reflexivity.
    - destruct (find_gt t); reflexivity. }
  assert (Hplus :
            Re.plus_k not_gt s
              (fun prev' s' =>
                 Re.lit_k (lit ">") prev' s' (fun prev'' s'' => k prev'' s'' cap))
            = match find_gt s with
              | Some (S n) => k (Some ">"%char) (skipn (S (S n)) s) cap
              | _ => None
              end).
  { induction s as [|c s IH]; [reflexivity|]. cbn [Re.plus_k find_gt].
    change (not_gt c) with (negb (Ascii.eqb c ">")).
    destruct (Ascii.eqb c ">") eqn:E; [reflexivity|]. cbn [negb].
    rewrite IH, Hlit.
    destruct (find_gt s) as [[|n]|]; cbn [option_map]; try reflexivity.
    change (skipn (S (S (S n))) (c :: s)) with (skipn (S (S n)) s).
    destruct (k (Some ">"%char) (skipn (S (S n)) s) cap); reflexivity. }
  rewrite Hplus, Hlit.
  destruct (find_gt s) as [[|n]|]; try reflexivity.
  destruct (k (Some ">"%char) (skipn (S (S n)) s) cap); reflexivity.
Qed.

(** A tag is matched at a [<] that has a [>] after it, up to the first
    such [>]. *)
Lemma match_here_tag (prev : option ascii) (s : str) :
  Re.match_here html_tag prev s
  = match s with
    | c :: s' =>
        if Ascii.eqb c "<"
        then option_map (fun n => (S (S n), None)) (find_gt s')
        else None
    | [] => None
    end.
Proof.
  change (Re.match_here html_tag prev s)
    with (Re.lit_k ["<"%char] prev s
            (fun prev' s' =>
               Re.run (Re.Alt (Re.Seq (Re.Plus not_gt) (Re.Lit (lit ">")))
                              (Re.Lit (lit ">")))
                      prev' s' None
                      (fun _ s'' cap => Some (length s - length s'', cap)))).
  destruct s as [|c s']; [reflexivity|].
  cbn [Re.lit_k].
  rewrite (Ascii.eqb_sym "<" c).
  destruct (Ascii.eqb c "<"); [|reflexivity].
  rewrite run_after_lt.
  destruct (find_gt s') as [n|] eqn:E; [|reflexivity].
  destruct (find_gt_split s' n E) as [_ Hl]. cbn [option_map].
  do 2 f_equal. rewrite length_skipn. cbn [length]. lia.
Qed.

Local Abbreviation strip_from := (Re.sub_from html_tag []).

Lemma strip_prev (s : str) (skip : nat) (p1 p2 : option ascii) :
  strip_from skip p1 s = strip_from skip p2 s.
Proof.
  destruct s as [|c s]; cbn [Re.sub_from].
  - destruct skip; [|reflexivity]. rewrite !match_here_tag. reflexivity.
  - destruct skip; [|reflexivity]. rewrite !match_here_tag. reflexivity.
Qed.

Lemma strip_nil : strip_html [] = [].
Proof. reflexivity. Qed.

Lemma strip_cons_other (c : ascii) (s : str) :
  Ascii.eqb c "<" = false -> strip_html (c :: s) = c :: strip_html s.
Proof.
  intro H. unfold strip_html, Re.sub. cbn [Re.sub_from].
  rewrite match_here_tag, H. f_equal. apply strip_prev.
Qed.

Lemma strip_cons_open (s : str) :
  find_gt s = None -> strip_html ("<"%char :: s) = "<"%char :: strip_html s.
Proof.
  intro H. unfold strip_html, Re.sub. cbn [Re.sub_from].
  rewrite match_here_tag, H. rewrite Ascii.eqb_refl. cbn [option_map].
  f_equal. apply strip_prev.
Qed.

Lemma strip_cons_tag (s : str) (n : nat) :
  find_gt s = Some n ->
  strip_html ("<"%char :: s) = strip_html (skipn (S n) s).
Proof.
  intro H. unfold strip_html, Re.sub. cbn [Re.sub_from].
  rewrite match_here_tag, H. rewrite Ascii.eqb_refl. cbn [option_map app].
  destruct (find_gt_split s n H) as [Hs Hl].
  rewrite <- (firstn_skipn (S n) s) at 1.
  replace (S n) with (length (firstn (S n) s)) at 1
    by (rewrite length_firstn; lia).
  rewrite sub_skip. apply strip_prev.
Qed.

Lemma strip_without_gt (s : str) : find_gt s = None -> strip_html s = s.
Proof.
  induction s as [|c s IH]; intro H; [reflexivity|].
  pose proof (find_gt_tail c s H) as Ht.
  destruct (Ascii.eqb c "<") eqn:E.
  - apply Ascii.eqb_eq in E. subst c.
    rewrite (strip_cons_open s Ht), (IH Ht). reflexivity.
  - rewrite (strip_cons_other c s E), (IH Ht). reflexivity.
Qed.

Lemma tag_free_without_gt (s : str) : find_gt s = None -> tag_free s.
Proof.
  intros H a b c E. subst s.
  apply (find_gt_none_app (a ++ "<"%char :: b) c).
  rewrite <- app_assoc. exact H.
Qed.

Lemma tag_free_cons (c : ascii) (s : str) :
  Ascii.eqb c "<" = false -> tag_free s -> tag_free (c :: s).
Proof.
  intros Hc Hs a b d E. destruct a as [|x a].
  - inversion E. subst c. discriminate.
  - inversion E. apply (Hs a b d). assumption.
Qed.

Lemma tag_free_tail (c : ascii) (s : str) : tag_free (c :: s) -> tag_free s.
Proof. intros H a b d E. apply (H (c :: a) b d). rewrite E. reflexivity. Qed.

Lemma strip_tag_free_bounded (n : nat) :
  forall s, length s <= n -> tag_free (strip_html s).
Proof.
  induction n as [|n IH]; intros s Hl.
  - destruct s; [|simpl in Hl; lia]. intros [|] b c E; discriminate E.
  - destruct s as [|c s]; [intros [|] b d E; discriminate E|].
    simpl in Hl.
    destruct (Ascii.eqb c "<") eqn:Ec.
    + apply Ascii.eqb_eq in Ec. subst c.
      destruct (find_gt s) as [m|] eqn:Eg.
      * rewrite (strip_cons_tag s m Eg). apply IH.
        rewrite length_skipn. lia.
      * rewrite (strip_without_gt ("<"%char :: s)).
        -- apply tag_free_without_gt. simpl. rewrite Eg. reflexivity.
        -- simpl. rewrite Eg. reflexivity.
    + rewrite (strip_cons_other c s Ec).
      apply tag_free_cons; [exact Ec|]. apply IH. lia.
Qed.

Lemma strip_fixed (s : str) : tag_free s -> strip_html s = s.
Proof.
  induction s as [|c s IH]; intro H; [reflexivity|].
  pose proof (IH (tag_free_tail c s H)) as Hs.
  destruct (Ascii.eqb c "<") eqn:Ec.
  - apply Ascii.eqb_eq in Ec. subst c.
    destruct (find_gt s) as [m|] eqn:Eg.
    + exfalso. destruct (find_gt_split s m Eg) as [E _].
      apply (H [] (firstn m s) (skipn (S m) s)). simpl. f_equal. exact E.
    + rewrite (strip_cons_open s Eg), Hs. reflexivity.
  - rewrite (strip_cons_other c s Ec), Hs. reflexivity.
Qed.

End StripHtml.

(** X19: what [strip_html] returns holds no tag (no [<] with a [>] after
    it), a text without tag is returned as it is, and stripping twice is
    stripping once. *)
Theorem X19_strip_html_leaves_no_tag :
  forall (text : str),
    tag_free (strip_html text)
    /\ (tag_free text -> strip_html text = text)
    /\ strip_html (strip_html text) = strip_html text.
Proof.
  intro text.
  assert (H : tag_free (strip_html text))
    by (apply (strip_tag_free_bounded (length text)); lia).
  split; [exact H|]. split; [apply strip_fixed|].
  apply strip_fixed. exact H.
Qed.

(** The markup of a directions step. *)
Example strip_html_example :
  strip_html (lit "Turn <b>left</b> onto <b>Main St</b><div style=x>Toll</div>")
  = lit "Turn left onto Main StToll".
Proof. reflexivity. Qed.

(** ** Durations *)

Section Durations.
Local Open Scope Q_scope.

Lemma int_of_nonneg (x : Q) : 0 <= x -> int_of x = Qfloor x.
Proof.
  destruct x as [n d]. unfold Qle, int_of, Qfloor. simpl. intro H.
  apply Z.quot_div_nonneg; lia.
Qed.

Lemma int_of_inject (z : Z) : int_of (inject_Z z) = z.
Proof. unfold int_of. simpl. apply Z.quot_1_r. Qed.

Lemma floor_bounds (x : Q) : inject_Z (Qfloor x) <= x < inject_Z (Qfloor x) + 1.
Proof.
  split; [apply Qfloor_le|].
  pose proof (Qlt_floor x) as H. rewrite inject_Z_plus in H. exact H.
Qed.

(** Hours and minutes of a duration of an hour or more. *)
Lemma hours_and_minutes (minutes : Q) :
  60 <= minutes ->
  let h := int_of (floor_div minutes 60) in
  let m := int_of (float_mod minutes 60) in
  (1 <= h)%Z /\ (0 <= m < 60)%Z
  /\ inject_Z (60 * h + m) <= minutes < inject_Z (60 * h + m + 1).
Proof.
  intros H h m.
  assert (Hh : h = Qfloor (minutes / 60)) by apply int_of_inject.
  destruct (floor_bounds (minutes / 60)) as [Hlo Hhi]. rewrite <- Hh in Hlo, Hhi.
  assert (H60 : 60 * inject_Z h <= minutes < 60 * inject_Z h + 60).
  { remember (minutes / 60) as q eqn:Eq.
    assert (E : minutes == 60 * q) by (rewrite Eq; field).
    rewrite E. split; lra. }
  set (r := float_mod minutes 60) in *.
  assert (Hr : r == minutes - 60 * inject_Z h).
  { unfold r, float_mod, floor_div. rewrite <- Hh. reflexivity. }
  assert (Hr0 : 0 <= r < 60) by (rewrite Hr; lra).
  assert (Hm : m = Qfloor r) by (apply int_of_nonneg; apply Hr0).
  destruct (floor_bounds r) as [Hmlo Hmhi]. rewrite <- Hm in Hmlo, Hmhi.
  assert (Hh1 : (1 <= h)%Z).
  { rewrite Hh. change 1%Z with (Qfloor 1). apply Qfloor_resp_le.
    apply Qle_shift_div_l; [reflexivity | lra]. }
  assert (Hm0 : (0 <= m)%Z).
  { rewrite Hm. change 0%Z with (Qfloor 0). apply Qfloor_resp_le. apply Hr0. }
  assert (Hm60 : (m < 60)%Z).
  { rewrite Zlt_Qlt. apply Qle_lt_trans with (y := r); [exact Hmlo | apply Hr0]. }
  split; [exact Hh1|]. split; [lia|].
  rewrite !inject_Z_plus, inject_Z_mult.
  change (inject_Z 60) with 60. change (inject_Z 1) with 1.
  rewrite Hr in Hmlo, Hmhi. split; lra.
Qed.

Lemma collect_steps (steps : list DirectionsStep) (a : list Step * Z) :
  fold_left collect_step steps a
  = (fst a ++ plain_steps steps, (snd a + total_seconds steps)%Z).
Proof.
  revert a. induction steps as [|st steps IH]; intro a.
  - destruct a. simpl. rewrite app_nil_r, Z.add_0_r. reflexivity.
  - simpl. rewrite IH. unfold collect_step. cbn [fst snd].
    rewrite <- app_assoc, <- Z.add_assoc. reflexivity.
Qed.

Lemma total_seconds_nonneg (steps : list DirectionsStep) :
  Forall (fun st => (0 <= duration_value st)%Z) steps ->
  (0 <= total_seconds steps)%Z.
Proof. induction 1 as [|st steps Hst _ IH]; simpl; lia. Qed.

(** The multiplier of a route lies between the least and the greatest
    multiplier of the table. *)
Lemma multiplier_range (self : TrafficData) (route_steps : list Step) :
  90 # 100 <= multiplier (calculate_route_adjustment self route_steps) <= 130 # 100.
Proof.
  rewrite calculate_route_adjustment_eq.
  pose proof (multipliers_in_table self (route_candidates route_steps)) as Ht.
  fold (tier_multipliers self route_steps) in Ht.
  destruct (tier_multipliers self route_steps) as [|m ms];
    [split; discriminate|].
  cbn [multiplier].
  setoid_replace (90 # 100) with (inject_Z 900 / 1000) by (vm_compute; reflexivity).
  setoid_replace (130 # 100) with (inject_Z 1300 / 1000) by (vm_compute; reflexivity).
  apply round3_bounds. apply mean_bounds; [discriminate|].
  eapply Forall_impl; [|exact Ht].
  intros x [t ->]. destruct t; split; discriminate.
Qed.

End Durations.

(** X20: for a duration of an hour or more [format_duration] shows whole
    hours and whole minutes: at least one hour, minutes from 0 to 59 (left
    out when 0), together the duration cut down to the whole minute. *)
Theorem X20_hours_and_minutes :
  forall (minutes : Q),
    (60 <= minutes)%Q ->
    exists h m : Z,
      (1 <= h)%Z /\ (0 <= m < 60)%Z
      /\ (inject_Z (60 * h + m) <= minutes < inject_Z (60 * h + m + 1))%Q
      /\ format_duration minutes
         = if (m =? 0)%Z
           then decimal h ++ lit " hr"
           else decimal h ++ lit " hr " ++ decimal m ++ lit " mins".
Proof.
  intros minutes H.
  exists (int_of (floor_div minutes 60)), (int_of (float_mod minutes 60)).
  destruct (hours_and_minutes minutes H) as (Hh & Hm & Hb).
  split; [exact Hh|]. split; [exact Hm|]. split; [exact Hb|].
  unfold format_duration.
  rewrite (proj2 (Qltb_ge minutes 60) H). reflexivity.
Qed.

Lemma X20_hours_and_minutes_witness :
  exists h m : Z,
    (1 <= h)%Z /\ (0 <= m < 60)%Z
    /\ (inject_Z (60 * h + m) <= 181 # 2 < inject_Z (60 * h + m + 1))%Q
    /\ format_duration (181 # 2)
       = if (m =? 0)%Z
         then decimal h ++ lit " hr"
         else decimal h ++ lit " hr " ++ decimal m ++ lit " mins".
Proof. apply (X20_hours_and_minutes (181 # 2)). discriminate. Defined.

(** Below an hour the minutes are rounded, so that half a minute short of
    the hour reads as 60 minutes. *)
Example format_duration_examples :
  format_duration (181 # 2) = lit "1 hr 30 mins"
  /\ format_duration 120 = lit "2 hr"
  /\ format_duration (119 # 2) = lit "60 mins"
  /\ format_duration (594 # 10) = lit "59 mins".
Proof. repeat split. Qed.

(** X21: for a leg whose steps last no negative time, the adjusted seconds
    the route resource reports lie between nine tenths of the leg's
    seconds (less one second for the cut to whole seconds) and thirteen
    tenths of them; the analysis it reports is the engine's for the
    instructions with the markup removed. *)
Theorem X21_adjusted_seconds_within_range :
  forall (self : TrafficData) (steps : list DirectionsStep),
    Forall (fun st => (0 <= duration_value st)%Z) steps ->
    let r := route_traffic self steps in
    let total := total_seconds steps in
    let adjustment := calculate_route_adjustment self (plain_steps steps) in
    (9 * total - 10 <= 10 * traffic_adjusted_seconds r <= 13 * total)%Z
    /\ analysis_multiplier r = multiplier adjustment
    /\ analysis_confidence r = confidence adjustment
    /\ streets_analyzed r = streets_matched adjustment.
Proof.
  intros self steps Hpos r total adjustment. subst r.
  unfold route_traffic. rewrite collect_steps. cbn [fst snd app].
  rewrite Z.add_0_l. fold total. fold adjustment.
  cbn [traffic_adjusted_seconds analysis_multiplier analysis_confidence
       streets_analyzed].
  split; [|repeat split].
  pose proof (total_seconds_nonneg steps Hpos) as Ht. fold total in Ht.
  destruct (multiplier_range self (plain_steps steps)) as [Hlo Hhi].
  fold adjustment in Hlo, Hhi.
  set (M := multiplier adjustment) in *.
  assert (HT : (0 <= inject_Z total)%Q) by (rewrite <- (Zle_Qle 0); exact Ht).
  set (T := inject_Z total) in *.
  assert (Hy : (T / 60 * M * 60 == T * M)%Q) by field.
  assert (H1 : ((9 # 10) * T <= T * M)%Q).
  { rewrite (Qmult_comm T M). apply Qmult_le_compat_r; [|exact HT].
    apply Qle_trans with (y := (90 # 100)%Q); [discriminate | exact Hlo]. }
  assert (H2 : (T * M <= (13 # 10) * T)%Q).
  { rewrite (Qmult_comm T M). apply Qmult_le_compat_r; [|exact HT].
    apply Qle_trans with (y := (130 # 100)%Q); [exact Hhi | discriminate]. }
  assert (Hnn : (0 <= T / 60 * M * 60)%Q) by (rewrite Hy; lra).
  rewrite (int_of_nonneg _ Hnn), (Qfloor_comp _ _ Hy).
  destruct (floor_bounds (T * M)) as [Hflo Hfhi].
  set (f := Qfloor (T * M)) in *.
  assert (A : (inject_Z (9 * total) <= inject_Z (10 * f + 10))%Q).
  { rewrite inject_Z_plus, !inject_Z_mult. fold T.
    change (inject_Z 9) with 9%Q. change (inject_Z 10) with 10%Q. lra. }
  assert (B : (inject_Z (10 * f) <= inject_Z (13 * total))%Q).
  { rewrite !inject_Z_mult. fold T.
    change (inject_Z 13) with 13%Q. change (inject_Z 10) with 10%Q. lra. }
  rewrite <- Zle_Qle in A, B. lia.
Qed.

Lemma X21_adjusted_seconds_witness :
  (9 * 150 - 10
   <= 10 * traffic_adjusted_seconds
             (route_traffic example_data
                [directions_step "Head on <b>Main St</b>" 100;
                 directions_step "Continue" 50])
   <= 13 * 150)%Z
  /\ traffic_adjusted_seconds
       (route_traffic example_data
          [directions_step "Head on <b>Main St</b>" 100;
           directions_step "Continue" 50]) = 142%Z.
Proof.
  split; [|reflexivity].
  apply (X21_adjusted_seconds_within_range example_data
           [directions_step "Head on <b>Main St</b>" 100;
            directions_step "Continue" 50]).
  repeat constructor; discriminate.
Defined.

(** ** More traffic, no smaller multiplier *)

Section Monotone.
Local Open Scope Q_scope.

Lemma tier_multiplier_by_count (count : Q) :
  (count < 3000 /\ CONGESTION_MULTIPLIERS (tier_of count) = 90 # 100)
  \/ (3000 <= count /\ count < 8000
      /\ CONGESTION_MULTIPLIERS (tier_of count) = 95 # 100)
  \/ (8000 <= count /\ count < 15000 /\ CONGESTION_MULTIPLIERS (tier_of count) = 1)
  \/ (15000 <= count /\ count < 25000
      /\ CONGESTION_MULTIPLIERS (tier_of count) = 115 # 100)
  \/ (25000 <= count /\ CONGESTION_MULTIPLIERS (tier_of count) = 130 # 100).
Proof.
  destruct (tier_of_intervals count)
    as [[H1 ->] | [(H1 & H2 & ->) | [(H1 & H2 & ->) | [(H1 & H2 & ->) | [H1 ->]]]]];
    auto 10.
Qed.

End Monotone.

(** X22: of two streets the classifier knows, the one with the greater
    count never gets the smaller multiplier. *)
Theorem X22_multiplier_grows_with_count :
  forall (self : TrafficData) (a b : str) (la lb : level) (ma mb ca cb : Q),
    get_traffic_level self a = (la, ma, Some ca) ->
    get_traffic_level self b = (lb, mb, Some cb) ->
    (ca <= cb)%Q ->
    (ma <= mb)%Q.
Proof.
  intros self a b la lb ma mb ca cb Ha Hb Hle.
  unfold get_traffic_level in Ha, Hb.
  destruct (get_traffic_count self a) as [x|]; [|discriminate].
  destruct (get_traffic_count self b) as [y|]; [|discriminate].
  inversion Ha. inversion Hb. subst.
  destruct (tier_multiplier_by_count ca)
    as [[A ->] | [(A & A' & ->) | [(A & A' & ->) | [(A & A' & ->) | [A ->]]]]];
    destruct (tier_multiplier_by_count cb)
      as [[B ->] | [(B & B' & ->) | [(B & B' & ->) | [(B & B' & ->) | [B ->]]]]];
    try discriminate; exfalso; lra.
Qed.

Lemma X22_multiplier_witness : (95 # 100 <= 115 # 100)%Q.
Proof.
  apply (X22_multiplier_grows_with_count example_data (lit "Main St") (lit "Elm Av")
           (known low) (known high) (95 # 100) (115 # 100) 5000 20000);
    try reflexivity.
  discriminate.
Defined.
